(** * madewithml/evaluate.py: overall, per-class and slice metrics

    A shallow embedding of the metric calculators of [madewithml/evaluate.py]
    ([get_overall_metrics], [get_per_class_metrics], [nlp_llm], [short_text],
    [get_slice_metrics]) together with the part of the Python runtime, of NumPy
    and of scikit-learn's [precision_recall_fscore_support] those functions
    call.

    Conventions of the embedding:
    - a 1-d integer [np.ndarray] is a [list Z];
    - a Python [float] / [np.float64] is an exact rational [Q], always kept in
      lowest terms ([Qred]), so rounding is not modelled;
    - a Python exception is a constructor of [exn], carried by [result];
    - an insertion-ordered [dict] with string keys is an association list
      whose keys never repeat;
    - a Python [str] is a [string] of 8-bit characters, read as the code
      points 0 to 255: the whitespace test is Python's on those code points
      and [str.lower] is the ASCII one. *)

From Stdlib Require Import List ZArith QArith Qreduction String Ascii Bool.
From Stdlib Require Import Lia Lqa Permutation Sorted.
Import ListNotations.

Local Open Scope Z_scope.

(** ** Python runtime *)

Module Py.

Inductive exn : Type :=
| ValueError
| IndexError
| ZeroDivisionError.

Inductive result (A : Type) : Type :=
| Ok (a : A)
| Raise (e : exn).

Arguments Ok {A} a.
Arguments Raise {A} e.

Definition bind {A B : Type} (m : result A) (k : A -> result B) : result B :=
  match m with
  | Ok a => k a
  | Raise e => Raise e
  end.

(** [seq[i]] for a non-negative [i]: [IndexError] past the end. *)
Definition getitem {A : Type} (l : list A) (i : nat) : result A :=
  match nth_error l i with
  | Some a => Ok a
  | None => Raise IndexError
  end.

(** Insertion-ordered dictionaries keyed by strings. *)
Definition dict (V : Type) : Type := list (string * V).

Definition keys {V : Type} (d : dict V) : list string := map fst d.

(** [d[k] = v]: an existing key keeps its position, a new one goes last. *)
Fixpoint dict_set {V : Type} (d : dict V) (k : string) (v : V) : dict V :=
  match d with
  | [] => [(k, v)]
  | (k', v') :: d' =>
      if String.eqb k' k then (k', v) :: d' else (k', v') :: dict_set d' k v
  end.

Fixpoint dict_get {V : Type} (d : dict V) (k : string) : option V :=
  match d with
  | [] => None
  | (k', v') :: d' => if String.eqb k' k then Some v' else dict_get d' k
  end.

(** [OrderedDict(items)]: the pairs are inserted one after the other. *)
Definition dict_of_items {V : Type} (items : list (string * V)) : dict V :=
  fold_left (fun d kv => dict_set d (fst kv) (snd kv)) items [].

Definition Qlt_bool (a b : Q) : bool := negb (Qle_bool b a).

(** The stable ascending insertion sort that stands for the list sort:
    the head of the input goes in front of every element whose key is not
    strictly smaller. *)
Fixpoint insert_asc {A : Type} (key : A -> Q) (x : A) (l : list A) : list A :=
  match l with
  | [] => [x]
  | y :: l' =>
      if Qlt_bool (key y) (key x) then y :: insert_asc key x l' else x :: l
  end.

Definition sort_asc {A : Type} (key : A -> Q) (l : list A) : list A :=
  fold_right (insert_asc key) [] l.

(** [sorted(l, key=key, reverse=reverse)]. As in CPython, [reverse=True]
    reverses the list, sorts it in ascending order and reverses the result. *)
Definition sorted {A : Type} (key : A -> Q) (reverse : bool) (l : list A)
  : list A :=
  if reverse then rev (sort_asc key (rev l)) else sort_asc key l.

End Py.

Import Py.

Notation "x <- m ;; k" := (bind m (fun x => k))
  (at level 61, m at next level, right associativity).

(** ** NumPy *)

Module Np.

(** [a[mask]] for a boolean [mask]: the selected entries, [IndexError] when
    the mask is not as long as the array. *)
Definition bool_index (a : list Z) (mask : list bool) : result (list Z) :=
  if Nat.eqb (List.length a) (List.length mask)
  then Ok (map fst (filter snd (combine a mask)))
  else Raise IndexError.

(** [arr.astype(bool)]: zero is false, everything else true. *)
Definition astype_bool (a : list Z) : list bool :=
  map (fun v => negb (v =? 0)) a.

(** The builtin [sum] over a boolean array. *)
Definition sum_mask (mask : list bool) : Z :=
  fold_right (fun b acc => Z.b2z b + acc) 0 mask.

Definition Zsum (l : list Z) : Z := fold_right Z.add 0 l.

Definition Qsum (l : list Q) : Q := fold_right Qplus (0#1)%Q l.

(** [np.average(a, weights=w)]: the weighted mean, [ZeroDivisionError] when
    the weights sum to zero. The value is the exact rational; NumPy rounds
    every operation to binary64. *)
Definition average (a : list Q) (w : list Z) : result Q :=
  if Zsum w =? 0 then Raise ZeroDivisionError
  else Ok (Qred (Qsum (map (fun aw => fst aw * inject_Z (snd aw))%Q (combine a w))
                 / inject_Z (Zsum w))%Q).

(** [np.average(a)] with no weights: the mean (of a non-empty array; the
    callers below only average one-element arrays). *)
Definition mean (a : list Q) : Q :=
  Qred (Qsum a / inject_Z (Z.of_nat (List.length a)))%Q.

End Np.

(** ** scikit-learn: [sklearn.metrics.precision_recall_fscore_support]

    The library function as evaluate.py calls it: integer labels, no
    [labels], [sample_weight] or [pos_label] argument, [beta = 1] and
    [zero_division = "warn"] (an undefined ratio is set to 0). *)

Module Sklearn.

(** Insertion into a strictly increasing list of labels. *)
Fixpoint insert_label (x : Z) (l : list Z) : list Z :=
  match l with
  | [] => [x]
  | y :: l' =>
      if x <? y then x :: l
      else if x =? y then l
      else y :: insert_label x l'
  end.

(** [unique_labels(y_true, y_pred)]: the labels that occur in either array,
    each once, in increasing order. With no [labels] argument these are the
    classes the metrics are computed for. *)
Definition unique_labels (y_true y_pred : list Z) : list Z :=
  fold_right insert_label [] (y_true ++ y_pred).

(** [check_consistent_length]. *)
Definition check_consistent_length (y_true y_pred : list Z) : result unit :=
  if Nat.eqb (List.length y_true) (List.length y_pred)
  then Ok tt else Raise ValueError.

Definition count_label (l : Z) (y : list Z) : Z :=
  Z.of_nat (List.length (filter (Z.eqb l) y)).

(** Samples of label [l] that are predicted [l]. *)
Definition count_tp (l : Z) (y_true y_pred : list Z) : Z :=
  Z.of_nat (List.length
    (filter (fun tp => (fst tp =? l) && (snd tp =? l)) (combine y_true y_pred))).

(** One 2x2 block of [multilabel_confusion_matrix]. *)
Record confusion : Type := {
  tn : Z;
  fp : Z;
  fn : Z;
  tp : Z
}.

Definition confusion_of (y_true y_pred : list Z) (l : Z) : confusion :=
  let tp_sum := count_tp l y_true y_pred in
  let pred_sum := count_label l y_pred in
  let true_sum := count_label l y_true in
  let fp := pred_sum - tp_sum in
  let fn := true_sum - tp_sum in
  {| tn := Z.of_nat (List.length y_true) - tp_sum - fp - fn;
     fp := fp; fn := fn; tp := tp_sum |}.

Definition multilabel_confusion_matrix (y_true y_pred : list Z)
  : result (list confusion) :=
  _ <- check_consistent_length y_true y_pred;;
  Ok (map (confusion_of y_true y_pred) (unique_labels y_true y_pred)).

(** [_prf_divide]: the ratio, 0 where the denominator is 0. *)
Definition prf_divide (numerator denominator : Z) : Q :=
  if denominator =? 0 then (0#1)%Q
  else Qred (inject_Z numerator / inject_Z denominator)%Q.

(** The F1 score of a precision and a recall; a zero denominator is replaced
    by 1, which gives 0. The value is the exact rational; the library rounds
    every operation to binary64. *)
Definition f_score (precision recall : Q) : Q :=
  let denom := (precision + recall)%Q in
  let denom := if Qeq_bool denom (0#1) then (1#1)%Q else denom in
  Qred ((2#1) * precision * recall / denom)%Q.

(** The sufficient statistics of one label: (tp_sum, pred_sum, true_sum). *)
Definition sums (c : confusion) : Z * Z * Z :=
  (tp c, tp c + fp c, tp c + fn c).

Definition tp_sum (s : Z * Z * Z) : Z := fst (fst s).
Definition pred_sum (s : Z * Z * Z) : Z := snd (fst s).
Definition true_sum (s : Z * Z * Z) : Z := snd s.

Definition precision_of (s : Z * Z * Z) : Q := prf_divide (tp_sum s) (pred_sum s).
Definition recall_of (s : Z * Z * Z) : Q := prf_divide (tp_sum s) (true_sum s).
Definition fscore_of (s : Z * Z * Z) : Q := f_score (precision_of s) (recall_of s).

(** [average=None]: one precision, recall, F1 and support per label of
    [unique_labels], in that order. *)
Definition prfs_none (y_true y_pred : list Z)
  : result (list Q * list Q * list Q * list Z) :=
  MCM <- multilabel_confusion_matrix y_true y_pred;;
  let stats := map sums MCM in
  Ok (map precision_of stats, map recall_of stats, map fscore_of stats,
      map true_sum stats).

(** [average="micro"]: the statistics are summed over the labels first. *)
Definition prfs_micro (y_true y_pred : list Z) : result (Q * Q * Q) :=
  MCM <- multilabel_confusion_matrix y_true y_pred;;
  let stats := map sums MCM in
  let pooled := [(Np.Zsum (map tp_sum stats),
                  Np.Zsum (map pred_sum stats),
                  Np.Zsum (map true_sum stats))] in
  Ok (Np.mean (map precision_of pooled), Np.mean (map recall_of pooled),
      Np.mean (map fscore_of pooled)).

(** [average="weighted"]: the per-label scores averaged with the supports as
    weights. When there is no true sample at all every score is the zero
    division value 0 (scikit-learn 1.2; later releases give nan there, and
    none raises). *)
Definition prfs_weighted (y_true y_pred : list Z) : result (Q * Q * Q) :=
  MCM <- multilabel_confusion_matrix y_true y_pred;;
  let stats := map sums MCM in
  let weights := map true_sum stats in
  if Np.Zsum weights =? 0 then Ok ((0#1)%Q, (0#1)%Q, (0#1)%Q)
  else
    precision <- Np.average (map precision_of stats) weights;;
    recall <- Np.average (map recall_of stats) weights;;
    fscore <- Np.average (map fscore_of stats) weights;;
    Ok (precision, recall, fscore).

End Sklearn.

(** ** madewithml/evaluate.py *)

(** [num_samples] is an [np.float64] in the overall and per-class records and
    a plain [int] in the slice records. *)
Inductive number : Type :=
| Float64 (q : Q)
| Int (n : Z).

Record MetricRecord : Type := {
  precision : Q;
  recall : Q;
  f1 : Q;
  num_samples : number
}.

Definition len (y : list Z) : Z := Z.of_nat (List.length y).

Definition get_overall_metrics (y_true y_pred : list Z) : result MetricRecord :=
  metrics <- Sklearn.prfs_weighted y_true y_pred;;
  let overall_metrics :=
    {| precision := fst (fst metrics);
       recall := snd (fst metrics);
       f1 := snd metrics;
       num_samples := Float64 (inject_Z (len y_true)) |} in
  Ok overall_metrics.

(** The body of [for i, _class in enumerate(class_to_index)]. *)
Fixpoint per_class_loop (metrics : list Q * list Q * list Q * list Z)
    (i : nat) (classes : list string) (per_class_metrics : dict MetricRecord)
  : result (dict MetricRecord) :=
  match classes with
  | [] => Ok per_class_metrics
  | _class :: classes' =>
      let '(m0, m1, m2, m3) := metrics in
      p <- getitem m0 i;;
      r <- getitem m1 i;;
      f <- getitem m2 i;;
      s <- getitem m3 i;;
      per_class_loop metrics (S i) classes'
        (dict_set per_class_metrics _class
           {| precision := p; recall := r; f1 := f;
              num_samples := Float64 (inject_Z s) |})
  end.

Definition get_per_class_metrics (y_true y_pred : list Z)
    (class_to_index : dict Z) : result (dict MetricRecord) :=
  metrics <- Sklearn.prfs_none y_true y_pred;;
  per_class_metrics <- per_class_loop metrics 0 (keys class_to_index) [];;
  let sorted_per_class_metrics :=
    dict_of_items (sorted (fun tag => f1 (snd tag)) true per_class_metrics) in
  Ok sorted_per_class_metrics.

(** *** Slicing functions *)

(** The row of the preprocessed data frame a slicing function sees. *)
Record example : Type := {
  text : string;
  tag : string
}.

Module Str.

(** [needle] is a prefix of [s]. *)
Fixpoint startswith (needle s : string) : bool :=
  match needle, s with
  | EmptyString, _ => true
  | String a needle', String b s' => Ascii.eqb a b && startswith needle' s'
  | String _ _, EmptyString => false
  end.

(** [needle in s] for two strings. *)
Fixpoint contains (needle s : string) : bool :=
  startswith needle s ||
  match s with
  | EmptyString => false
  | String _ s' => contains needle s'
  end.

Definition lower_char (c : ascii) : ascii :=
  let n := nat_of_ascii c in
  if Nat.leb 65 n && Nat.leb n 90 then ascii_of_nat (n + 32) else c.

(** [s.lower()]. *)
Fixpoint lower (s : string) : string :=
  match s with
  | EmptyString => EmptyString
  | String c s' => String (lower_char c) (lower s')
  end.

(** The characters [str.split()] splits on, among the code points 0 to 255:
    tab, line feed, vertical tab, form feed, carriage return, the four
    separators 28..31, the space, the next-line control (133) and the
    no-break space (160). *)
Definition isspace (c : ascii) : bool :=
  let n := nat_of_ascii c in
  (Nat.leb 9 n && Nat.leb n 13) || (Nat.leb 28 n && Nat.leb n 32)
  || Nat.eqb n 133 || Nat.eqb n 160.

(** [s.split()]: the maximal runs of non-space characters, [cur] being the
    run read so far. *)
Fixpoint split_from (cur : option string) (s : string) : list string :=
  match s with
  | EmptyString =>
      match cur with
      | Some w => [w]
      | None => []
      end
  | String c s' =>
      if isspace c then
        match cur with
        | Some w => w :: split_from None s'
        | None => split_from None s'
        end
      else
        split_from
          (Some (match cur with
                 | Some w => String.append w (String c EmptyString)
                 | None => String c EmptyString
                 end)) s'
  end.

Definition split (s : string) : list string := split_from None s.

End Str.

Definition nlp_llm (x : example) : bool :=
  let nlp_project := Str.contains "natural-language-processing"%string (tag x) in
  let llm_terms := ["transformer"; "llm"; "bert"]%string in
  let llm_project :=
    existsb (fun s => Str.contains (Str.lower s) (Str.lower (text x))) llm_terms in
  nlp_project && llm_project.

Definition short_text (x : example) : bool :=
  Nat.ltb (List.length (Str.split (text x))) 8.

(** *** Slices *)

(** A slicing function with the name the applier files its column under. *)
Definition slicing_function : Type := string * (example -> bool).

(** The record array [PandasSFApplier.apply] fills: one integer column per
    slicing function, named after it, with one entry per row. *)
Definition applier_columns (slicing_functions : list slicing_function)
    (df : list example) : list (string * list Z) :=
  map (fun sf => (fst sf, map (fun x => Z.b2z (snd sf x)) df)) slicing_functions.

(** [PandasSFApplier(slicing_functions).apply(df)]: the columns; on a data
    frame without rows the applier fails with [ValueError]. *)
Definition applier_apply (slicing_functions : list slicing_function)
    (df : list example) : result (list (string * list Z)) :=
  match df with
  | [] => Raise ValueError
  | _ :: _ => Ok (applier_columns slicing_functions df)
  end.

(** The body of [for slice_name in slices.dtype.names]. *)
Fixpoint slice_loop (y_true y_pred : list Z) (slices : list (string * list Z))
    (slice_metrics : dict MetricRecord) : result (dict MetricRecord) :=
  match slices with
  | [] => Ok slice_metrics
  | (slice_name, column) :: slices' =>
      let mask := Np.astype_bool column in
      if negb (Np.sum_mask mask =? 0) then
        yt <- Np.bool_index y_true mask;;
        yp <- Np.bool_index y_pred mask;;
        metrics <- Sklearn.prfs_micro yt yp;;
        yt' <- Np.bool_index y_true mask;;
        slice_loop y_true y_pred slices'
          (dict_set slice_metrics slice_name
             {| precision := fst (fst metrics);
                recall := snd (fst metrics);
                f1 := snd metrics;
                num_samples := Int (len yt') |})
      else slice_loop y_true y_pred slices' slice_metrics
  end.

(** [get_slice_metrics], from the preprocessed data frame [df] on; the
    preprocessor that produces [df] from the dataset is outside this file. *)
Definition get_slice_metrics (y_true y_pred : list Z) (df : list example)
  : result (dict MetricRecord) :=
  let slicing_functions :=
    [("nlp_llm"%string, nlp_llm); ("short_text"%string, short_text)] in
  slices <- applier_apply slicing_functions df;;
  slice_loop y_true y_pred slices [].

(** *** The report *)

(** The dictionary [evaluate] builds and returns. *)
Record Report : Type := {
  timestamp : string;
  run_id : string;
  overall : MetricRecord;
  per_class : dict MetricRecord;
  slices : dict MetricRecord
}.

(** The [# Metrics] block of [evaluate]: the values of the dictionary display
    are computed in the order they are written, and the first exception ends
    the call. Loading the dataset and the predictor, which produce [y_true],
    [y_pred], [class_to_index] and the data frame, and the clock that gives
    [timestamp] are outside this file. *)
Definition evaluate_metrics (timestamp run_id : string)
    (y_true y_pred : list Z) (class_to_index : dict Z) (df : list example)
  : result Report :=
  overall <- get_overall_metrics y_true y_pred;;
  per_class <- get_per_class_metrics y_true y_pred class_to_index;;
  slices <- get_slice_metrics y_true y_pred df;;
  Ok {| timestamp := timestamp; run_id := run_id; overall := overall;
        per_class := per_class; slices := slices |}.

(** * Vocabulary of the statements *)

(** ** Results and orders *)

Definition fails {A : Type} (m : result A) : Prop := exists e, m = Raise e.

Definition unit_interval (q : Q) : Prop := (0 <= q <= 1)%Q.

Definition ascending {A : Type} (key : A -> Q) (a b : A) : Prop :=
  (key a <= key b)%Q.

Definition descending {A : Type} (key : A -> Q) (a b : A) : Prop :=
  (key b <= key a)%Q.

(** The elements whose key has the value [q]. *)
Definition with_key {A : Type} (key : A -> Q) (q : Q) (l : list A) : list A :=
  filter (fun a => Qeq_bool (key a) q) l.

(** ** Label statistics *)

(** The (tp_sum, pred_sum, true_sum) triples of the labels of the data. *)
Definition stats_of (y_true y_pred : list Z) : list (Z * Z * Z) :=
  map Sklearn.sums
    (map (Sklearn.confusion_of y_true y_pred)
       (Sklearn.unique_labels y_true y_pred)).

Definition good_stats (s : Z * Z * Z) : Prop :=
  0 <= Sklearn.tp_sum s <= Sklearn.pred_sum s /\
  Sklearn.tp_sum s <= Sklearn.true_sum s.

(** ** Per-class records *)

(** The record built from position [i] of the four metric arrays. *)
Definition record_at (metrics : list Q * list Q * list Q * list Z) (i : nat)
    (m : MetricRecord) : Prop :=
  let '(m0, m1, m2, m3) := metrics in
  nth_error m0 i = Some (precision m) /\
  nth_error m1 i = Some (recall m) /\
  nth_error m2 i = Some (f1 m) /\
  exists s, nth_error m3 i = Some s /\ num_samples m = Float64 (inject_Z s).

Definition arrays_of_length (n : nat)
    (metrics : list Q * list Q * list Q * list Z) : Prop :=
  let '(m0, m1, m2, m3) := metrics in
  List.length m0 = n /\ List.length m1 = n /\
  List.length m2 = n /\ List.length m3 = n.

(** The class [k] has a record in [d] whose f1 has the value [q]. *)
Definition has_f1 (d : dict MetricRecord) (q : Q) (k : string) : bool :=
  match dict_get d k with
  | Some m => Qeq_bool (f1 m) q
  | None => false
  end.

(** ** Strings *)

(** [needle] occurs in [s] as a contiguous piece. *)
Definition occurs_in (needle s : string) : Prop :=
  exists pre post, s = (pre ++ needle ++ post)%string.

(** [needle] occurs in [s] up to the case of the letters. *)
Definition occurs_in_ignoring_case (needle s : string) : Prop :=
  exists pre mid post,
    s = (pre ++ mid ++ post)%string /\ Str.lower mid = Str.lower needle.

Fixpoint all_chars (p : ascii -> bool) (s : string) : bool :=
  match s with
  | EmptyString => true
  | String c s' => p c && all_chars p s'
  end.

(** A token is a non-empty string free of whitespace. *)
Definition token (w : string) : Prop :=
  w <> EmptyString /\ all_chars (fun c => negb (Str.isspace c)) w = true.

(** ** Slices *)

(** The entries of [a] the mask selects, and the number of true entries. *)
Definition select (a : list Z) (mask : list bool) : list Z :=
  map fst (filter snd (combine a mask)).

Definition count_true (mask : list bool) : nat :=
  List.length (filter (fun b => b) mask).

(** Micro averaging in the words of the specification: the true positives,
    false positives and false negatives of every class are pooled, and one
    precision, recall and F1 is computed from the pooled counts. *)
Definition count_where (p : Z -> Z -> bool) (T P : list Z) : Z :=
  Z.of_nat (List.length (filter (fun tp => p (fst tp) (snd tp)) (combine T P))).

Definition true_positives (l : Z) : list Z -> list Z -> Z :=
  count_where (fun t p => (t =? l) && (p =? l)).

Definition false_positives (l : Z) : list Z -> list Z -> Z :=
  count_where (fun t p => negb (t =? l) && (p =? l)).

Definition false_negatives (l : Z) : list Z -> list Z -> Z :=
  count_where (fun t p => (t =? l) && negb (p =? l)).

Definition pooled (count : Z -> list Z -> list Z -> Z) (T P : list Z) : Z :=
  Np.Zsum (map (fun l => count l T P) (Sklearn.unique_labels T P)).

Definition ratio (n d : Z) : Q :=
  if d =? 0 then 0%Q else (inject_Z n / inject_Z d)%Q.

Definition harmonic_mean (p r : Q) : Q :=
  if Qeq_bool (p + r) 0 then 0%Q else ((2#1) * p * r / (p + r))%Q.

Definition micro_precision (T P : list Z) : Q :=
  ratio (pooled true_positives T P)
        (pooled true_positives T P + pooled false_positives T P).

Definition micro_recall (T P : list Z) : Q :=
  ratio (pooled true_positives T P)
        (pooled true_positives T P + pooled false_negatives T P).

Definition micro_f1 (T P : list Z) : Q :=
  harmonic_mean (micro_precision T P) (micro_recall T P).

(** The record of a slice: micro averages over the selected samples and the
    number of selected samples as an [int]. *)
Definition slice_record (T P : list Z) (mask : list bool) (m : MetricRecord)
  : Prop :=
  (precision m == micro_precision (select T mask) (select P mask))%Q /\
  (recall m == micro_recall (select T mask) (select P mask))%Q /\
  (f1 m == micro_f1 (select T mask) (select P mask))%Q /\
  num_samples m = Int (Z.of_nat (count_true mask)).

(** ** Further vocabulary *)

(** The labels of [y] are class indices below [K]. *)
Definition in_range (K : nat) (y : list Z) : Prop :=
  Forall (fun t => 0 <= t < Z.of_nat K) y.

(** The integers [a], [a + 1], ..., [a + n - 1]. *)
Fixpoint zrange (a : Z) (n : nat) : list Z :=
  match n with
  | O => []
  | S n' => a :: zrange (a + 1) n'
  end.

(** The number of samples whose prediction is the truth. *)
Definition agreements (T P : list Z) : Z := count_where Z.eqb T P.

(** A string of whitespace characters only. *)
Definition whitespace (s : string) : Prop := all_chars Str.isspace s = true.

(** The record of the classic per-class metrics of the label [l]. *)
Definition class_record (T P : list Z) (l : Z) (m : MetricRecord) : Prop :=
  let tp := true_positives l T P in
  let p := ratio tp (tp + false_positives l T P) in
  let r := ratio tp (tp + false_negatives l T P) in
  (precision m == p)%Q /\ (recall m == r)%Q /\
  (f1 m == harmonic_mean p r)%Q /\
  num_samples m = Float64 (inject_Z (Sklearn.count_label l T)).

(** The classic scores of the label [l]. *)
Definition class_precision (T P : list Z) (l : Z) : Q :=
  ratio (true_positives l T P)
        (true_positives l T P + false_positives l T P).

Definition class_recall (T P : list Z) (l : Z) : Q :=
  ratio (true_positives l T P)
        (true_positives l T P + false_negatives l T P).

Definition class_f1 (T P : list Z) (l : Z) : Q :=
  harmonic_mean (class_precision T P l) (class_recall T P l).

(** The average of a per-label score over the labels of the data, each
    label weighted by its number of truth entries, over the [N] samples. *)
Definition weighted_average (score : Z -> Q) (T P : list Z) : Q :=
  (Np.Qsum (map (fun l => score l * inject_Z (Sklearn.count_label l T))
              (Sklearn.unique_labels T P))
   / inject_Z (len T))%Q.

(** The share of the samples whose prediction is the truth. *)
Definition accuracy (T P : list Z) : Q :=
  (inject_Z (agreements T P) / inject_Z (len T))%Q.

(** The slicing function holds of at least one row of the data frame. *)
Definition matches (df : list example) (sf : slicing_function) : bool :=
  negb (Nat.eqb (count_true (map (snd sf) df)) 0).

(** [get_slice_metrics] with the list of slicing functions as a parameter;
    [get_slice_metrics] itself is the instance at [nlp_llm], [short_text]. *)
Definition slice_metrics_of (sfs : list slicing_function)
    (y_true y_pred : list Z) (df : list example) : result (dict MetricRecord) :=
  slices <- applier_apply sfs df;;
  slice_loop y_true y_pred slices [].

(** [rest] is empty or begins with a whitespace character, so that a word
    in front of it ends there. *)
Definition word_end (rest : string) : Prop :=
  match rest with
  | EmptyString => True
  | String c _ => Str.isspace c = true
  end.

(** Splitting on whitespace, in the words of the specification: the text is
    whitespace only and has no token, or it is whitespace, then a token that
    ends where the rest begins, then a rest that splits into the other
    tokens. *)
Inductive splits_into : string -> list string -> Prop :=
| splits_blank (sp : string) :
    whitespace sp -> splits_into sp []
| splits_word (sp w rest : string) (ws : list string) :
    whitespace sp -> token w -> word_end rest -> splits_into rest ws ->
    splits_into (sp ++ w ++ rest)%string (w :: ws).

(** * Properties of the runtime model *)

(** ** Dictionaries *)

Section DictFacts.

Context {V : Type}.
Implicit Types (d : dict V) (k : string) (v : V).

Lemma keys_dict_set_In d k v k' :
  In k' (keys (dict_set d k v)) <-> In k' (keys d) \/ k' = k.
Proof.
  induction d as [|[k0 v0] d IH]; simpl.
  - intuition congruence.
  - destruct (String.eqb_spec k0 k) as [->|Hne]; simpl.
    + intuition congruence.
    + unfold keys in IH. rewrite IH. tauto.
Qed.

Lemma dict_set_fresh d k v :
  ~ In k (keys d) -> dict_set d k v = d ++ [(k, v)].
Proof.
  induction d as [|[k0 v0] d IH]; simpl; intros Hk; [reflexivity|].
  destruct (String.eqb_spec k0 k) as [->|Hne].
  - exfalso. apply Hk. now left.
  - f_equal. apply IH. intros Hin. apply Hk. now right.
Qed.

Lemma keys_dict_set_old d k v :
  In k (keys d) -> keys (dict_set d k v) = keys d.
Proof.
  induction d as [|[k0 v0] d IH]; simpl; intros Hk; [contradiction|].
  destruct (String.eqb_spec k0 k) as [->|Hne]; simpl; [reflexivity|].
  f_equal. apply IH. destruct Hk; [contradiction|assumption].
Qed.

Lemma NoDup_keys_dict_set d k v :
  NoDup (keys d) -> NoDup (keys (dict_set d k v)).
Proof.
  intros Hnd. destruct (in_dec string_dec k (keys d)) as [Hin|Hnin].
  - now rewrite keys_dict_set_old.
  - rewrite dict_set_fresh by assumption. unfold keys. rewrite map_app. simpl.
    apply NoDup_rev in Hnd. rewrite <- (rev_involutive (map fst d ++ [k])).
    apply NoDup_rev. rewrite rev_app_distr. simpl. constructor; [|assumption].
    now rewrite <- in_rev.
Qed.

Lemma dict_get_dict_set_eq d k v : dict_get (dict_set d k v) k = Some v.
Proof.
  induction d as [|[k0 v0] d IH]; simpl.
  - now rewrite String.eqb_refl.
  - destruct (String.eqb_spec k0 k) as [->|Hne]; simpl.
    + now rewrite String.eqb_refl.
    + destruct (String.eqb_spec k0 k); [contradiction|assumption].
Qed.

Lemma dict_get_dict_set_neq d k v k' :
  k' <> k -> dict_get (dict_set d k v) k' = dict_get d k'.
Proof.
  intros Hne. induction d as [|[k0 v0] d IH]; simpl.
  - destruct (String.eqb_spec k k'); [congruence|reflexivity].
  - destruct (String.eqb_spec k0 k) as [->|Hne0]; simpl.
    + destruct (String.eqb_spec k k'); [congruence|reflexivity].
    + now rewrite IH.
Qed.

Lemma dict_get_Some_In d k v : dict_get d k = Some v -> In (k, v) d.
Proof.
  induction d as [|[k0 v0] d IH]; simpl; [discriminate|].
  destruct (String.eqb_spec k0 k) as [->|Hne].
  - intros [= ->]. now left.
  - intros H. right. now apply IH.
Qed.

Lemma dict_get_In d k v :
  NoDup (keys d) -> In (k, v) d -> dict_get d k = Some v.
Proof.
  induction d as [|[k0 v0] d IH]; simpl; [contradiction|].
  intros Hnd [Heq|Hin].
  - injection Heq as -> ->. now rewrite String.eqb_refl.
  - inversion Hnd as [|? ? Hnot Hnd']; subst.
    destruct (String.eqb_spec k0 k) as [->|Hne].
    + exfalso. apply Hnot. now apply (in_map fst) in Hin.
    + now apply IH.
Qed.

Lemma dict_get_None d k : ~ In k (keys d) -> dict_get d k = None.
Proof.
  induction d as [|[k0 v0] d IH]; simpl; [reflexivity|].
  intros Hk. destruct (String.eqb_spec k0 k) as [->|Hne].
  - exfalso. apply Hk. now left.
  - apply IH. intros Hin. apply Hk. now right.
Qed.

Lemma fold_dict_set_NoDup (items acc : list (string * V)) :
  NoDup (keys (acc ++ items)) ->
  fold_left (fun d kv => dict_set d (fst kv) (snd kv)) items acc = acc ++ items.
Proof.
  revert acc. induction items as [|[k v] items IH]; intros acc Hnd; simpl.
  - now rewrite app_nil_r.
  - assert (Hfresh : ~ In k (keys acc)).
    { unfold keys in *. rewrite map_app in Hnd. simpl in Hnd.
      apply NoDup_remove_2 in Hnd. intros Hin. apply Hnd.
      apply in_or_app. now left. }
    rewrite dict_set_fresh by assumption.
    rewrite IH; rewrite <- app_assoc; simpl; [reflexivity|assumption].
Qed.

Lemma dict_of_items_NoDup (items : list (string * V)) :
  NoDup (keys items) -> dict_of_items items = items.
Proof.
  intros Hnd. unfold dict_of_items. now rewrite fold_dict_set_NoDup.
Qed.

End DictFacts.

(** ** The sort *)

Lemma Qlt_bool_true a b : Qlt_bool a b = true <-> (a < b)%Q.
Proof.
  unfold Qlt_bool. rewrite negb_true_iff. split; intros H.
  - apply Qnot_le_lt. intros Hle. apply Qle_bool_iff in Hle. congruence.
  - destruct (Qle_bool b a) eqn:E; [|reflexivity].
    apply Qle_bool_iff in E. exfalso. now apply (Qlt_not_le a b).
Qed.

Lemma Qlt_bool_false a b : Qlt_bool a b = false <-> (b <= a)%Q.
Proof.
  unfold Qlt_bool. rewrite negb_false_iff. apply Qle_bool_iff.
Qed.

Lemma StronglySorted_app {A : Type} (R : A -> A -> Prop) (l1 l2 : list A) :
  StronglySorted R l1 -> StronglySorted R l2 ->
  (forall a b, In a l1 -> In b l2 -> R a b) ->
  StronglySorted R (l1 ++ l2).
Proof.
  induction l1 as [|x l1 IH]; simpl; intros H1 H2 H12; [assumption|].
  inversion H1 as [|? ? Hs Hall]; subst. constructor.
  - apply IH; auto.
  - apply Forall_app. split; [assumption|].
    apply Forall_forall. intros b Hb. apply H12; auto.
Qed.

Lemma StronglySorted_rev {A : Type} (R : A -> A -> Prop) (l : list A) :
  StronglySorted R l -> StronglySorted (fun a b => R b a) (rev l).
Proof.
  induction 1 as [|x l Hs IH Hall]; simpl; [constructor|].
  apply StronglySorted_app; [assumption|repeat constructor|].
  intros a b Ha [<-|[]]. rewrite Forall_forall in Hall.
  apply Hall. now apply in_rev.
Qed.

Section SortFacts.

Context {A : Type} (key : A -> Q).

Lemma insert_asc_perm x l : Permutation (insert_asc key x l) (x :: l).
Proof.
  induction l as [|y l IH]; simpl; [reflexivity|].
  destruct (Qlt_bool (key y) (key x)); [|reflexivity].
  rewrite IH. apply perm_swap.
Qed.

Lemma sort_asc_perm l : Permutation (sort_asc key l) l.
Proof.
  induction l as [|x l IH]; simpl; [reflexivity|].
  rewrite insert_asc_perm. now constructor.
Qed.

Lemma insert_asc_sorted x l :
  StronglySorted (ascending key) l -> StronglySorted (ascending key) (insert_asc key x l).
Proof.
  induction 1 as [|y l Hs IH Hall]; simpl; [repeat constructor|].
  destruct (Qlt_bool (key y) (key x)) eqn:E.
  - apply Qlt_bool_true in E. constructor; [assumption|].
    eapply Permutation_Forall; [symmetry; apply insert_asc_perm|].
    constructor; [now apply Qlt_le_weak|assumption].
  - apply Qlt_bool_false in E. constructor.
    + now constructor.
    + constructor; [assumption|].
      apply Forall_impl with (2 := Hall). intros a Ha.
      unfold ascending in *. now apply Qle_trans with (key y).
Qed.

Lemma sort_asc_sorted l : StronglySorted (ascending key) (sort_asc key l).
Proof.
  induction l as [|x l IH]; simpl; [constructor|]. now apply insert_asc_sorted.
Qed.

Lemma insert_asc_stable q x l :
  with_key key q (insert_asc key x l) = with_key key q (x :: l).
Proof.
  induction l as [|y l IH]; [reflexivity|].
  simpl insert_asc. destruct (Qlt_bool (key y) (key x)) eqn:E; [|reflexivity].
  apply Qlt_bool_true in E.
  change (with_key key q (y :: insert_asc key x l))
    with (if Qeq_bool (key y) q then y :: with_key key q (insert_asc key x l)
          else with_key key q (insert_asc key x l)).
  rewrite IH. unfold with_key. simpl.
  destruct (Qeq_bool (key y) q) eqn:Ey, (Qeq_bool (key x) q) eqn:Ex;
    try reflexivity.
  apply Qeq_bool_iff in Ey, Ex. rewrite Ey, Ex in E.
  now apply Qlt_irrefl in E.
Qed.

Lemma sort_asc_stable q l : with_key key q (sort_asc key l) = with_key key q l.
Proof.
  induction l as [|x l IH]; [reflexivity|].
  simpl sort_asc. rewrite insert_asc_stable. unfold with_key in *. simpl.
  now rewrite IH.
Qed.

(** [sorted(..., reverse=True)] permutes its input, puts the keys in
    descending order and keeps the elements of equal key in input order. *)
Lemma sorted_reverse_perm l : Permutation (sorted key true l) l.
Proof.
  unfold sorted. rewrite <- Permutation_rev, sort_asc_perm.
  symmetry. apply Permutation_rev.
Qed.

Lemma sorted_reverse_descending l :
  StronglySorted (descending key) (sorted key true l).
Proof.
  unfold sorted. apply (StronglySorted_rev (ascending key)), sort_asc_sorted.
Qed.

Lemma sorted_reverse_stable q l :
  with_key key q (sorted key true l) = with_key key q l.
Proof.
  unfold sorted.
  transitivity (rev (with_key key q (sort_asc key (rev l)))).
  { unfold with_key. apply filter_rev. }
  rewrite sort_asc_stable. unfold with_key.
  now rewrite filter_rev, rev_involutive.
Qed.

End SortFacts.

(** ** Rational arithmetic of the scores *)

Lemma prf_divide_unit n d :
  0 <= n <= d -> unit_interval (Sklearn.prf_divide n d).
Proof.
  intros [Hn Hd]. unfold unit_interval, Sklearn.prf_divide.
  destruct (Z.eqb_spec d 0) as [->|Hne]; [split; discriminate|].
  rewrite Qred_correct.
  assert (Hpos : (0 < inject_Z d)%Q) by (unfold Qlt; simpl; lia).
  split.
  - apply Qle_shift_div_l; [assumption|]. rewrite Qmult_0_l.
    change (0#1)%Q with (inject_Z 0). now rewrite <- Zle_Qle.
  - apply Qle_shift_div_r; [assumption|]. rewrite Qmult_1_l.
    now rewrite <- Zle_Qle.
Qed.

Lemma f_score_unit p r :
  unit_interval p -> unit_interval r -> unit_interval (Sklearn.f_score p r).
Proof.
  unfold unit_interval. intros [Hp0 Hp1] [Hr0 Hr1]. unfold Sklearn.f_score.
  rewrite Qred_correct.
  destruct (Qeq_bool (p + r) 0) eqn:E.
  - apply Qeq_bool_iff in E.
    assert (Hp : (p == 0)%Q) by lra.
    assert (H : ((2#1) * p * r / 1 == 0)%Q) by (rewrite Hp; field).
    rewrite H. split; lra.
  - apply Qeq_bool_neq in E.
    assert (Hpos : (0 < p + r)%Q) by lra.
    split.
    + apply Qle_shift_div_l; [assumption|]. nra.
    + apply Qle_shift_div_r; [assumption|]. nra.
Qed.

Lemma Zsum_nonneg w : Forall (fun z => 0 <= z) w -> 0 <= Np.Zsum w.
Proof.
  induction 1 as [|z w Hz _ IH]; simpl; lia.
Qed.

Lemma weighted_sum_bounds a w :
  Forall unit_interval a -> Forall (fun z => 0 <= z) w ->
  (0 <= Np.Qsum (map (fun aw => fst aw * inject_Z (snd aw)) (combine a w))
     <= inject_Z (Np.Zsum w))%Q.
Proof.
  intros Ha. revert w. induction Ha as [|x a Hx _ IH]; intros w Hw.
  - simpl. split; [apply Qle_refl|].
    change (0#1)%Q with (inject_Z 0). rewrite <- Zle_Qle.
    now apply Zsum_nonneg.
  - destruct Hw as [|z w Hz Hw]; simpl.
    + split; apply Qle_refl.
    + specialize (IH w Hw). rewrite inject_Z_plus.
      assert (Hz' : (0 <= inject_Z z)%Q).
      { change (0#1)%Q with (inject_Z 0). now rewrite <- Zle_Qle. }
      unfold unit_interval in Hx. split; nra.
Qed.

Lemma Ok_inj {A : Type} (a b : A) : Ok a = Ok b -> a = b.
Proof. congruence. Qed.

Lemma average_unit a w q :
  Forall unit_interval a -> Forall (fun z => 0 <= z) w ->
  Np.average a w = Ok q -> unit_interval q.
Proof.
  intros Ha Hw. unfold Np.average.
  destruct (Z.eqb_spec (Np.Zsum w) 0) as [|Hne]; [discriminate|].
  intros H. apply Ok_inj in H. rewrite <- H.
  unfold unit_interval. rewrite Qred_correct.
  pose proof (weighted_sum_bounds a w Ha Hw) as [H0 H1].
  pose proof (Zsum_nonneg w Hw) as Hs.
  assert (Hpos : (0 < inject_Z (Np.Zsum w))%Q) by (unfold Qlt; simpl; lia).
  split.
  - apply Qle_shift_div_l; [assumption|]. now rewrite Qmult_0_l.
  - apply Qle_shift_div_r; [assumption|]. now rewrite Qmult_1_l.
Qed.

(** ** Labels and counts *)

Lemma In_insert_label x y l :
  In y (Sklearn.insert_label x l) <-> y = x \/ In y l.
Proof.
  induction l as [|z l IH]; simpl.
  - intuition.
  - destruct (x <? z); [simpl; intuition|].
    destruct (Z.eqb_spec x z) as [->|Hne]; simpl.
    + intuition.
    + rewrite IH. intuition.
Qed.

Lemma In_unique_labels x y_true y_pred :
  In x (Sklearn.unique_labels y_true y_pred) <-> In x y_true \/ In x y_pred.
Proof.
  unfold Sklearn.unique_labels. rewrite <- in_app_iff.
  induction (y_true ++ y_pred) as [|z l IH]; simpl; [tauto|].
  rewrite In_insert_label, IH. intuition.
Qed.

Lemma count_tp_le_pred l y_true y_pred :
  Sklearn.count_tp l y_true y_pred <= Sklearn.count_label l y_pred.
Proof.
  unfold Sklearn.count_tp, Sklearn.count_label. apply inj_le.
  revert y_pred. induction y_true as [|t y_true IH]; intros [|p y_pred];
    simpl; try lia.
  specialize (IH y_pred).
  destruct (Z.eqb_spec t l), (Z.eqb_spec p l), (Z.eqb_spec l p);
    simpl; try lia; congruence.
Qed.

Lemma count_tp_le_true l y_true y_pred :
  Sklearn.count_tp l y_true y_pred <= Sklearn.count_label l y_true.
Proof.
  unfold Sklearn.count_tp, Sklearn.count_label. apply inj_le.
  revert y_pred. induction y_true as [|t y_true IH]; intros [|p y_pred];
    simpl; try lia.
  specialize (IH y_pred).
  destruct (Z.eqb_spec t l), (Z.eqb_spec p l), (Z.eqb_spec l t);
    simpl; try lia; congruence.
Qed.

Lemma count_tp_nonneg l y_true y_pred : 0 <= Sklearn.count_tp l y_true y_pred.
Proof. unfold Sklearn.count_tp. lia. Qed.

Lemma count_label_nonneg l y : 0 <= Sklearn.count_label l y.
Proof. unfold Sklearn.count_label. lia. Qed.

(** The statistics recovered from a confusion block are the three counts. *)
Lemma sums_confusion_of y_true y_pred l :
  Sklearn.sums (Sklearn.confusion_of y_true y_pred l) =
  (Sklearn.count_tp l y_true y_pred, Sklearn.count_label l y_pred,
   Sklearn.count_label l y_true).
Proof.
  unfold Sklearn.sums, Sklearn.confusion_of. simpl. f_equal; [f_equal|]; lia.
Qed.

Lemma stats_of_good y_true y_pred : Forall good_stats (stats_of y_true y_pred).
Proof.
  unfold stats_of. rewrite map_map. apply Forall_map, Forall_forall.
  intros l _. rewrite sums_confusion_of.
  unfold good_stats, Sklearn.tp_sum, Sklearn.pred_sum, Sklearn.true_sum. simpl.
  pose proof (count_tp_nonneg l y_true y_pred).
  pose proof (count_tp_le_pred l y_true y_pred).
  pose proof (count_tp_le_true l y_true y_pred). lia.
Qed.

Lemma precision_of_unit s : good_stats s -> unit_interval (Sklearn.precision_of s).
Proof. intros [H _]. now apply prf_divide_unit. Qed.

Lemma recall_of_unit s : good_stats s -> unit_interval (Sklearn.recall_of s).
Proof. intros [[H0 _] H]. apply prf_divide_unit. lia. Qed.

Lemma fscore_of_unit s : good_stats s -> unit_interval (Sklearn.fscore_of s).
Proof.
  intros H. apply f_score_unit; [now apply precision_of_unit|now apply recall_of_unit].
Qed.

Lemma multilabel_confusion_matrix_ok y_true y_pred :
  List.length y_true = List.length y_pred ->
  Sklearn.multilabel_confusion_matrix y_true y_pred =
  Ok (map (Sklearn.confusion_of y_true y_pred)
        (Sklearn.unique_labels y_true y_pred)).
Proof.
  intros Hlen. unfold Sklearn.multilabel_confusion_matrix,
    Sklearn.check_consistent_length.
  now rewrite Hlen, Nat.eqb_refl.
Qed.

Lemma multilabel_confusion_matrix_mismatch y_true y_pred :
  List.length y_true <> List.length y_pred ->
  Sklearn.multilabel_confusion_matrix y_true y_pred = Raise ValueError.
Proof.
  intros Hlen. unfold Sklearn.multilabel_confusion_matrix,
    Sklearn.check_consistent_length.
  apply Nat.eqb_neq in Hlen. now rewrite Hlen.
Qed.

Lemma insert_label_sorted x l :
  StronglySorted Z.lt l -> StronglySorted Z.lt (Sklearn.insert_label x l).
Proof.
  induction 1 as [|y l Hs IH Hall]; simpl; [repeat constructor|].
  destruct (Z.ltb_spec x y) as [Hlt|Hge].
  - constructor; [now constructor|]. constructor; [assumption|].
    apply Forall_impl with (2 := Hall). intros; lia.
  - destruct (Z.eqb_spec x y) as [->|Hne]; [now constructor|].
    constructor; [assumption|]. apply Forall_forall. intros z Hz.
    apply In_insert_label in Hz. destruct Hz as [->|Hz]; [lia|].
    rewrite Forall_forall in Hall. now apply Hall.
Qed.

Lemma unique_labels_sorted y_true y_pred :
  StronglySorted Z.lt (Sklearn.unique_labels y_true y_pred).
Proof.
  unfold Sklearn.unique_labels.
  induction (y_true ++ y_pred) as [|z l IH]; simpl; [constructor|].
  now apply insert_label_sorted.
Qed.

Lemma StronglySorted_lt_NoDup l : StronglySorted Z.lt l -> NoDup l.
Proof.
  induction 1 as [|y l Hs IH Hall]; constructor; [|assumption].
  intros Hin. rewrite Forall_forall in Hall. specialize (Hall y Hin). lia.
Qed.

Lemma unique_labels_NoDup y_true y_pred :
  NoDup (Sklearn.unique_labels y_true y_pred).
Proof. apply StronglySorted_lt_NoDup, unique_labels_sorted. Qed.

Lemma Zsum_map_add {A : Type} (f g : A -> Z) (l : list A) :
  Np.Zsum (map (fun a => f a + g a) l) = Np.Zsum (map f l) + Np.Zsum (map g l).
Proof. induction l as [|a l IH]; simpl; lia. Qed.

Lemma Zsum_indicator_absent t L :
  ~ In t L -> Np.Zsum (map (fun l => if l =? t then 1 else 0) L) = 0.
Proof.
  induction L as [|l L IH]; simpl; intros Hnin; [reflexivity|].
  destruct (Z.eqb_spec l t) as [->|Hne]; [exfalso; auto|].
  rewrite IH; auto.
Qed.

Lemma Zsum_indicator t L :
  NoDup L -> In t L -> Np.Zsum (map (fun l => if l =? t then 1 else 0) L) = 1.
Proof.
  induction 1 as [|l L Hnin Hnd IH]; simpl; intros Hin; [contradiction|].
  destruct (Z.eqb_spec l t) as [->|Hne].
  - now rewrite Zsum_indicator_absent.
  - destruct Hin as [->|Hin]; [contradiction|]. now rewrite IH.
Qed.

(** Every sample is counted under exactly one label. *)
Lemma Zsum_count_label L y :
  NoDup L -> (forall t, In t y -> In t L) ->
  Np.Zsum (map (fun l => Sklearn.count_label l y) L) = len y.
Proof.
  intros Hnd. induction y as [|t y IH]; intros Hin.
  - unfold Sklearn.count_label, len. simpl.
    induction L as [|l L IHL]; simpl; [reflexivity|].
    inversion Hnd; subst. now rewrite IHL.
  - rewrite (map_ext _ (fun l => (if l =? t then 1 else 0)
                                 + Sklearn.count_label l y)).
    + rewrite Zsum_map_add, Zsum_indicator, IH; auto.
      * unfold len. simpl List.length. lia.
      * intros t' Ht'. apply Hin. now right.
      * apply Hin. now left.
    + intros l. unfold Sklearn.count_label. simpl.
      destruct (l =? t); simpl List.length; lia.
Qed.

Lemma true_sum_stats_of y_true y_pred :
  map Sklearn.true_sum (stats_of y_true y_pred) =
  map (fun l => Sklearn.count_label l y_true)
    (Sklearn.unique_labels y_true y_pred).
Proof.
  unfold stats_of. rewrite !map_map. apply map_ext. intros l.
  now rewrite sums_confusion_of.
Qed.

Lemma pred_sum_stats_of y_true y_pred :
  map Sklearn.pred_sum (stats_of y_true y_pred) =
  map (fun l => Sklearn.count_label l y_pred)
    (Sklearn.unique_labels y_true y_pred).
Proof.
  unfold stats_of. rewrite !map_map. apply map_ext. intros l.
  now rewrite sums_confusion_of.
Qed.

Lemma tp_sum_stats_of y_true y_pred :
  map Sklearn.tp_sum (stats_of y_true y_pred) =
  map (fun l => Sklearn.count_tp l y_true y_pred)
    (Sklearn.unique_labels y_true y_pred).
Proof.
  unfold stats_of. rewrite !map_map. apply map_ext. intros l.
  now rewrite sums_confusion_of.
Qed.

(** The supports add up to the number of samples. *)
Lemma support_total y_true y_pred :
  Np.Zsum (map Sklearn.true_sum (stats_of y_true y_pred)) = len y_true.
Proof.
  rewrite true_sum_stats_of. apply Zsum_count_label.
  - apply unique_labels_NoDup.
  - intros t Ht. apply In_unique_labels. now left.
Qed.

Lemma predicted_total y_true y_pred :
  Np.Zsum (map Sklearn.pred_sum (stats_of y_true y_pred)) = len y_pred.
Proof.
  rewrite pred_sum_stats_of. apply Zsum_count_label.
  - apply unique_labels_NoDup.
  - intros t Ht. apply In_unique_labels. now right.
Qed.

(** ** The overall metrics *)

Lemma prfs_weighted_mismatch y_true y_pred :
  List.length y_true <> List.length y_pred ->
  Sklearn.prfs_weighted y_true y_pred = Raise ValueError.
Proof.
  intros H. unfold Sklearn.prfs_weighted.
  now rewrite multilabel_confusion_matrix_mismatch.
Qed.

Lemma prfs_weighted_unfold y_true y_pred :
  List.length y_true = List.length y_pred ->
  Sklearn.prfs_weighted y_true y_pred =
  let stats := stats_of y_true y_pred in
  let weights := map Sklearn.true_sum stats in
  if len y_true =? 0 then Ok ((0#1)%Q, (0#1)%Q, (0#1)%Q)
  else
    precision <- Np.average (map Sklearn.precision_of stats) weights;;
    recall <- Np.average (map Sklearn.recall_of stats) weights;;
    fscore <- Np.average (map Sklearn.fscore_of stats) weights;;
    Ok (precision, recall, fscore).
Proof.
  intros H. unfold Sklearn.prfs_weighted.
  rewrite multilabel_confusion_matrix_ok by assumption. simpl bind.
  fold (stats_of y_true y_pred). now rewrite support_total.
Qed.

Lemma prfs_weighted_ok y_true y_pred :
  List.length y_true = List.length y_pred ->
  exists p r f,
    Sklearn.prfs_weighted y_true y_pred = Ok (p, r, f) /\
    unit_interval p /\ unit_interval r /\ unit_interval f.
Proof.
  intros H. rewrite prfs_weighted_unfold by assumption. cbv zeta.
  destruct (Z.eqb_spec (len y_true) 0) as [Hz|Hnz].
  - exists (0#1)%Q, (0#1)%Q, (0#1)%Q.
    repeat split; discriminate.
  - pose proof (stats_of_good y_true y_pred) as Hgood.
    assert (Hw : Forall (fun z => 0 <= z)
                   (map Sklearn.true_sum (stats_of y_true y_pred))).
    { apply Forall_map. apply Forall_impl with (2 := Hgood).
      intros s [[H0 _] H1]. lia. }
    assert (Hex : forall a, exists q,
               Np.average a (map Sklearn.true_sum (stats_of y_true y_pred)) = Ok q).
    { intros a. unfold Np.average. rewrite support_total.
      destruct (Z.eqb_spec (len y_true) 0); [contradiction|]. eauto. }
    destruct (Hex (map Sklearn.precision_of (stats_of y_true y_pred))) as [p Hp].
    destruct (Hex (map Sklearn.recall_of (stats_of y_true y_pred))) as [r Hr].
    destruct (Hex (map Sklearn.fscore_of (stats_of y_true y_pred))) as [f Hf].
    exists p, r, f. rewrite Hp, Hr, Hf. simpl. split; [reflexivity|].
    split; [|split].
    + apply average_unit with (3 := Hp); [|assumption].
      apply Forall_map, Forall_impl with (2 := Hgood), precision_of_unit.
    + apply average_unit with (3 := Hr); [|assumption].
      apply Forall_map, Forall_impl with (2 := Hgood), recall_of_unit.
    + apply average_unit with (3 := Hf); [|assumption].
      apply Forall_map, Forall_impl with (2 := Hgood), fscore_of_unit.
Qed.

Lemma get_overall_metrics_mismatch y_true y_pred :
  List.length y_true <> List.length y_pred ->
  get_overall_metrics y_true y_pred = Raise ValueError.
Proof.
  intros H. unfold get_overall_metrics. now rewrite prfs_weighted_mismatch.
Qed.

Lemma get_overall_metrics_ok y_true y_pred :
  List.length y_true = List.length y_pred ->
  exists m,
    get_overall_metrics y_true y_pred = Ok m /\
    unit_interval (precision m) /\ unit_interval (recall m) /\
    unit_interval (f1 m) /\
    num_samples m = Float64 (inject_Z (len y_true)).
Proof.
  intros H. destruct (prfs_weighted_ok y_true y_pred H)
    as (p & r & f & Heq & Hp & Hr & Hf).
  unfold get_overall_metrics. rewrite Heq. simpl.
  eexists. split; [reflexivity|]. simpl. auto.
Qed.

(** The weighted scheme: on non-empty input each overall score is the sum
    over the labels of the per-label score times the label's support,
    divided by the number of samples. *)
Lemma get_overall_metrics_weighted_scheme y_true y_pred :
  List.length y_true = List.length y_pred -> (0 < List.length y_true)%nat ->
  let stats := stats_of y_true y_pred in
  let weighted score :=
    Qred (Np.Qsum (map (fun s => score s * inject_Z (Sklearn.true_sum s))%Q stats)
          / inject_Z (len y_true))%Q in
  get_overall_metrics y_true y_pred =
  Ok {| precision := weighted Sklearn.precision_of;
        recall := weighted Sklearn.recall_of;
        f1 := weighted Sklearn.fscore_of;
        num_samples := Float64 (inject_Z (len y_true)) |}.
Proof.
  intros Hlen Hpos stats weighted. unfold get_overall_metrics.
  rewrite prfs_weighted_unfold by assumption. cbv zeta.
  destruct (Z.eqb_spec (len y_true) 0) as [Hz|Hnz]; [unfold len in Hz; lia|].
  unfold Np.average. rewrite support_total.
  destruct (Z.eqb_spec (len y_true) 0) as [Hz|_]; [contradiction|].
  assert (Hcomb : forall score : Z * Z * Z -> Q,
    map (fun aw : Q * Z => (fst aw * inject_Z (snd aw))%Q)
      (combine (map score (stats_of y_true y_pred))
         (map Sklearn.true_sum (stats_of y_true y_pred))) =
    map (fun s => (score s * inject_Z (Sklearn.true_sum s))%Q)
      (stats_of y_true y_pred)).
  { intros score. induction (stats_of y_true y_pred) as [|s l IH];
      simpl; [reflexivity|]. now rewrite IH. }
  simpl bind. rewrite !Hcomb. reflexivity.
Qed.

(** ** The per-class metrics *)

Lemma keys_combine {V : Type} (ks : list string) (vs : list V) :
  List.length vs = List.length ks -> keys (combine ks vs) = ks.
Proof.
  revert vs. induction ks as [|k ks IH]; intros [|v vs]; simpl;
    try discriminate; [reflexivity|].
  intros [= H]. f_equal. now apply IH.
Qed.

(** With fresh, distinct class names the loop appends one record per class,
    the [j]-th class getting the metrics at position [i + j]. *)
Lemma per_class_loop_fresh metrics classes :
  forall i acc out,
    NoDup (keys acc ++ classes) ->
    per_class_loop metrics i classes acc = Ok out ->
    exists recs,
      out = acc ++ combine classes recs /\
      List.length recs = List.length classes /\
      forall j r, nth_error recs j = Some r -> record_at metrics (i + j) r.
Proof.
  destruct metrics as [[[m0 m1] m2] m3].
  induction classes as [|c cs IH]; intros i acc out Hnd; simpl.
  - intros [= <-]. exists []. rewrite app_nil_r.
    split; [reflexivity|split; [reflexivity|]].
    intros [|j] r'; discriminate.
  - unfold getitem.
    destruct (nth_error m0 i) as [p|] eqn:E0; [|discriminate].
    destruct (nth_error m1 i) as [r|] eqn:E1; [|discriminate].
    destruct (nth_error m2 i) as [f|] eqn:E2; [|discriminate].
    destruct (nth_error m3 i) as [s|] eqn:E3; [|discriminate].
    simpl bind. intros Hloop.
    assert (Hfresh : ~ In c (keys acc)).
    { apply NoDup_remove_2 in Hnd. intros Hin. apply Hnd.
      apply in_or_app. now left. }
    rewrite dict_set_fresh in Hloop by assumption.
    apply IH in Hloop.
    + destruct Hloop as (recs & -> & Hlen & Hrec).
      exists ({| precision := p; recall := r; f1 := f;
                 num_samples := Float64 (inject_Z s) |} :: recs).
      rewrite <- app_assoc. simpl.
      split; [reflexivity|split; [now rewrite Hlen|]].
      intros [|j] r'; simpl.
      * intros [= <-]. rewrite Nat.add_0_r. simpl. eauto 6.
      * intros Hj. replace (i + S j)%nat with (S i + j)%nat by lia.
        exact (Hrec j r' Hj).
    + unfold keys in *. rewrite map_app, <- app_assoc. exact Hnd.
Qed.

(** The loop returns when the arrays have an entry for every class ... *)
Lemma per_class_loop_total n metrics classes :
  arrays_of_length n metrics ->
  forall i acc, (i + List.length classes <= n)%nat ->
    exists out, per_class_loop metrics i classes acc = Ok out.
Proof.
  destruct metrics as [[[m0 m1] m2] m3]. intros (H0 & H1 & H2 & H3).
  induction classes as [|c cs IH]; intros i acc Hle; simpl; [eauto|].
  simpl in Hle. unfold getitem.
  destruct (nth_error m0 i) eqn:E0;
    [|apply nth_error_None in E0; lia].
  destruct (nth_error m1 i) eqn:E1;
    [|apply nth_error_None in E1; lia].
  destruct (nth_error m2 i) eqn:E2;
    [|apply nth_error_None in E2; lia].
  destruct (nth_error m3 i) eqn:E3;
    [|apply nth_error_None in E3; lia].
  simpl bind. apply IH. lia.
Qed.

(** ... and raises [IndexError] when they are too short. *)
Lemma per_class_loop_overflow n metrics classes :
  arrays_of_length n metrics ->
  forall i acc, (i <= n < i + List.length classes)%nat ->
    per_class_loop metrics i classes acc = Raise IndexError.
Proof.
  destruct metrics as [[[m0 m1] m2] m3]. intros (H0 & H1 & H2 & H3).
  induction classes as [|c cs IH]; intros i acc Hlt; simpl in *; [lia|].
  unfold getitem.
  destruct (nth_error m0 i) eqn:E0; [|reflexivity].
  assert (Hi : (i < n)%nat).
  { rewrite <- H0. apply nth_error_Some. congruence. }
  destruct (nth_error m1 i) eqn:E1;
    [|apply nth_error_None in E1; lia].
  destruct (nth_error m2 i) eqn:E2;
    [|apply nth_error_None in E2; lia].
  destruct (nth_error m3 i) eqn:E3;
    [|apply nth_error_None in E3; lia].
  simpl bind. apply IH. lia.
Qed.

Lemma prfs_none_ok y_true y_pred :
  List.length y_true = List.length y_pred ->
  exists metrics,
    Sklearn.prfs_none y_true y_pred = Ok metrics /\
    arrays_of_length (List.length (Sklearn.unique_labels y_true y_pred)) metrics.
Proof.
  intros H. unfold Sklearn.prfs_none.
  rewrite multilabel_confusion_matrix_ok by assumption. simpl bind.
  eexists. split; [reflexivity|]. simpl. now rewrite !length_map.
Qed.

Lemma prfs_none_mismatch y_true y_pred :
  List.length y_true <> List.length y_pred ->
  Sklearn.prfs_none y_true y_pred = Raise ValueError.
Proof.
  intros H. unfold Sklearn.prfs_none.
  now rewrite multilabel_confusion_matrix_mismatch.
Qed.

(** [get_per_class_metrics] returns exactly when the arrays agree in length
    and at least as many labels occur in the data as there are classes. *)
Lemma get_per_class_metrics_returns y_true y_pred class_to_index :
  List.length y_true = List.length y_pred ->
  (List.length class_to_index
     <= List.length (Sklearn.unique_labels y_true y_pred))%nat ->
  exists out, get_per_class_metrics y_true y_pred class_to_index = Ok out.
Proof.
  intros Hlen Hk. destruct (prfs_none_ok _ _ Hlen) as (metrics & Hm & Harr).
  unfold get_per_class_metrics. rewrite Hm. simpl bind.
  destruct (per_class_loop_total _ _ (keys class_to_index) Harr 0%nat [])
    as [pre Hpre].
  { unfold keys. rewrite length_map. simpl. exact Hk. }
  rewrite Hpre. simpl. eauto.
Qed.

Lemma get_per_class_metrics_index_error y_true y_pred class_to_index :
  List.length y_true = List.length y_pred ->
  (List.length (Sklearn.unique_labels y_true y_pred)
     < List.length class_to_index)%nat ->
  get_per_class_metrics y_true y_pred class_to_index = Raise IndexError.
Proof.
  intros Hlen Hk. destruct (prfs_none_ok _ _ Hlen) as (metrics & Hm & Harr).
  unfold get_per_class_metrics. rewrite Hm. simpl bind.
  rewrite (per_class_loop_overflow _ _ (keys class_to_index) Harr 0%nat []).
  - reflexivity.
  - unfold keys. rewrite length_map. simpl. lia.
Qed.

(** The shape of a returned per-class mapping: the records of the classes
    in mapping order, sorted by descending f1. *)
Lemma get_per_class_metrics_shape y_true y_pred class_to_index out :
  NoDup (keys class_to_index) ->
  get_per_class_metrics y_true y_pred class_to_index = Ok out ->
  exists metrics recs,
    Sklearn.prfs_none y_true y_pred = Ok metrics /\
    List.length recs = List.length (keys class_to_index) /\
    (forall j r, nth_error recs j = Some r -> record_at metrics j r) /\
    out = sorted (fun tag => f1 (snd tag)) true
            (combine (keys class_to_index) recs).
Proof.
  intros Hnd. unfold get_per_class_metrics.
  destruct (Sklearn.prfs_none y_true y_pred) as [metrics|] eqn:Hm;
    [|discriminate].
  simpl bind.
  destruct (per_class_loop metrics 0 (keys class_to_index) []) as [pre|] eqn:Hpre;
    [|discriminate].
  simpl bind. intros Hout. apply Ok_inj in Hout. subst out.
  apply per_class_loop_fresh in Hpre; [|exact Hnd].
  destruct Hpre as (recs & -> & Hlen & Hrec). simpl app.
  exists metrics, recs.
  split; [reflexivity|split; [assumption|split; [assumption|]]].
  apply dict_of_items_NoDup.
  apply Permutation_NoDup with (l := keys (combine (keys class_to_index) recs)).
  - unfold keys at 1 3. apply Permutation_map. symmetry.
    apply sorted_reverse_perm.
  - now rewrite keys_combine.
Qed.

Lemma map_fst_filter {A B : Type} (g : A * B -> bool) (h : A -> bool)
    (l : list (A * B)) :
  (forall kv, In kv l -> g kv = h (fst kv)) ->
  map fst (filter g l) = filter h (map fst l).
Proof.
  induction l as [|kv l IH]; simpl; intros Hgh; [reflexivity|].
  rewrite <- (Hgh kv) by now left.
  destruct (g kv); simpl; rewrite IH; auto.
Qed.

Local Open Scope string_scope.

(** C1 (the code departs from the claim). A class of the mapping that occurs
    neither in the truth nor in the prediction array has no entry in the
    arrays scikit-learn returns: for T = P = [0, 0] and the classes a, b the
    call raises [IndexError] instead of returning a zero record for b. *)
Theorem per_class_absent_class_raises :
  get_per_class_metrics [0; 0] [0; 0] [("a", 0); ("b", 1)] = Raise IndexError.
Proof. reflexivity. Qed.

(** A class without ground-truth samples that is predicted at least once is
    among the labels of the data and does get its zero record. *)
Example per_class_zero_support_class :
  get_per_class_metrics [0; 0] [0; 1] [("a", 0); ("b", 1)] =
  Ok [("a", {| precision := 1; recall := 1#2; f1 := 2#3;
               num_samples := Float64 2 |});
      ("b", {| precision := 0; recall := 0; f1 := 0;
               num_samples := Float64 0 |})].
Proof. reflexivity. Qed.

(** C2, the claim as stated, fails: two empty arrays are accepted and a
    record of zeros comes back. *)
Lemma overall_metrics_empty_input_returns :
  List.length (@nil Z) = 0%nat /\
  get_overall_metrics [] [] =
    Ok {| precision := 0; recall := 0; f1 := 0; num_samples := Float64 0 |} /\
  ~ fails (get_overall_metrics [] []).
Proof.
  split; [reflexivity|]. split; [reflexivity|].
  intros [e He]. discriminate He.
Qed.

(** C2 (amended). [get_overall_metrics] fails, with the [ValueError] of the
    library, exactly when the two arrays differ in length; arrays of equal
    length, the empty ones included, give a complete record whose
    [num_samples] is that length. *)
Theorem overall_metrics_fails_on_length_mismatch (y_true y_pred : list Z) :
  (List.length y_true <> List.length y_pred ->
   get_overall_metrics y_true y_pred = Raise ValueError) /\
  (List.length y_true = List.length y_pred ->
   exists m, get_overall_metrics y_true y_pred = Ok m /\
             num_samples m = Float64 (inject_Z (len y_true))).
Proof.
  split.
  - apply get_overall_metrics_mismatch.
  - intros H. destruct (get_overall_metrics_ok _ _ H) as (m & Hm & _ & _ & _ & Hn).
    eauto.
Qed.

Lemma overall_metrics_fails_on_length_mismatch_witness :
  get_overall_metrics [1] [] = Raise ValueError /\
  exists m, get_overall_metrics [] [] = Ok m /\
            num_samples m = Float64 (inject_Z (len [])).
Proof.
  split.
  - apply (proj1 (overall_metrics_fails_on_length_mismatch [1] [])).
    simpl. lia.
  - apply (proj2 (overall_metrics_fails_on_length_mismatch [] [])).
    reflexivity.
Defined.

(** C3. A returned per-class mapping has exactly the keys of the class index
    mapping, each once; its records are in descending f1 order; and the
    classes whose f1 has a given value appear in the order they have in the
    class index mapping (the sort is stable). *)
Theorem per_class_keys_and_order (y_true y_pred : list Z)
    (class_to_index : dict Z) (out : dict MetricRecord) :
  NoDup (keys class_to_index) ->
  get_per_class_metrics y_true y_pred class_to_index = Ok out ->
  Permutation (keys out) (keys class_to_index) /\
  NoDup (keys out) /\
  StronglySorted (fun a b => (f1 (snd b) <= f1 (snd a))%Q) out /\
  forall q,
    keys (filter (fun kv => Qeq_bool (f1 (snd kv)) q) out) =
    filter (has_f1 out q) (keys class_to_index).
Proof.
  intros Hnd Hout.
  destruct (get_per_class_metrics_shape _ _ _ _ Hnd Hout)
    as (metrics & recs & _ & Hlen & _ & ->).
  set (pre := combine (keys class_to_index) recs).
  set (key := fun tag : string * MetricRecord => f1 (snd tag)).
  assert (Hkeys : keys pre = keys class_to_index) by now apply keys_combine.
  assert (Hperm : Permutation (sorted key true pre) pre)
    by apply sorted_reverse_perm.
  assert (Hpk : Permutation (keys (sorted key true pre)) (keys class_to_index)).
  { rewrite <- Hkeys. now apply Permutation_map. }
  assert (Hndo : NoDup (keys (sorted key true pre))).
  { apply Permutation_NoDup with (l := keys class_to_index);
      [now symmetry|assumption]. }
  split; [assumption|]. split; [assumption|]. split.
  - apply (sorted_reverse_descending key).
  - intros q. rewrite <- Hkeys.
    change (filter (fun kv => Qeq_bool (f1 (snd kv)) q) (sorted key true pre))
      with (with_key key q (sorted key true pre)).
    rewrite sorted_reverse_stable. unfold with_key, keys.
    apply map_fst_filter. intros [k m] Hin. unfold has_f1. simpl fst.
    rewrite (dict_get_In _ k m Hndo); [reflexivity|].
    apply Permutation_in with (l := pre); [now symmetry|assumption].
Qed.

Lemma per_class_keys_and_order_witness :
  exists out,
    get_per_class_metrics [0; 0; 1; 1] [0; 1; 1; 1] [("a", 0); ("b", 1)] = Ok out /\
    Permutation (keys out) ["a"; "b"] /\
    NoDup (keys out) /\
    StronglySorted (fun a b => (f1 (snd b) <= f1 (snd a))%Q) out /\
    forall q,
      keys (filter (fun kv => Qeq_bool (f1 (snd kv)) q) out) =
      filter (has_f1 out q) ["a"; "b"].
Proof.
  eexists. split; [reflexivity|].
  apply (per_class_keys_and_order [0; 0; 1; 1] [0; 1; 1; 1]
           [("a", 0); ("b", 1)]).
  - simpl. repeat constructor; simpl; intuition discriminate.
  - reflexivity.
Defined.

(** C6. On T = [0,0,1,1], P = [0,1,1,1] with the classes a, b the per-class
    mapping is b (precision 2/3, recall 1, f1 4/5) followed by a (precision
    1, recall 1/2, f1 2/3), and the overall record has num_samples 4 and
    scores that are the per-class scores weighted by support over N, that
    is by 2/4 each. *)
Theorem scenario_two_classes :
  exists ra rb overall,
    get_per_class_metrics [0; 0; 1; 1] [0; 1; 1; 1] [("a", 0); ("b", 1)] =
      Ok [("b", rb); ("a", ra)] /\
    precision ra = 1%Q /\ recall ra = (1#2)%Q /\ f1 ra = (2#3)%Q /\
    (6665#10000 <= f1 ra <= 6675#10000)%Q /\
    precision rb = (2#3)%Q /\ recall rb = 1%Q /\ f1 rb = (4#5)%Q /\
    (6665#10000 <= precision rb <= 6675#10000)%Q /\
    get_overall_metrics [0; 0; 1; 1] [0; 1; 1; 1] = Ok overall /\
    num_samples overall = Float64 4 /\
    (precision overall == (2#4) * precision ra + (2#4) * precision rb)%Q /\
    (recall overall == (2#4) * recall ra + (2#4) * recall rb)%Q /\
    (f1 overall == (2#4) * f1 ra + (2#4) * f1 rb)%Q.
Proof.
  do 3 eexists. split; [reflexivity|]. simpl.
  repeat split;
    first [reflexivity | discriminate | vm_compute; reflexivity].
Qed.

(** C9. For arrays of equal, non-zero length the overall record is returned,
    its precision, recall and f1 lie in [0, 1] and its num_samples is the
    length of the truth array. *)
Theorem overall_metrics_in_unit_interval (y_true y_pred : list Z) :
  List.length y_true = List.length y_pred ->
  (0 < List.length y_true)%nat ->
  exists m,
    get_overall_metrics y_true y_pred = Ok m /\
    (0 <= precision m <= 1)%Q /\
    (0 <= recall m <= 1)%Q /\
    (0 <= f1 m <= 1)%Q /\
    num_samples m = Float64 (inject_Z (Z.of_nat (List.length y_true))).
Proof.
  intros Hlen _. exact (get_overall_metrics_ok y_true y_pred Hlen).
Qed.

Lemma overall_metrics_in_unit_interval_witness :
  exists m,
    get_overall_metrics [0; 0; 1; 1] [0; 1; 1; 1] = Ok m /\
    (0 <= precision m <= 1)%Q /\
    (0 <= recall m <= 1)%Q /\
    (0 <= f1 m <= 1)%Q /\
    num_samples m = Float64 (inject_Z 4).
Proof.
  apply (overall_metrics_in_unit_interval [0; 0; 1; 1] [0; 1; 1; 1]).
  - reflexivity.
  - simpl. lia.
Defined.

(** C10. The per-class calculator reads the keys of the class index mapping
    and never its integer values: two mappings with the same key sequence
    give the same result, and in a returned mapping the class at insertion
    position [j] carries the metrics at position [j] of the arrays. *)
Theorem per_class_reads_key_order_only (y_true y_pred : list Z)
    (c1 c2 : dict Z) :
  keys c1 = keys c2 ->
  get_per_class_metrics y_true y_pred c1 = get_per_class_metrics y_true y_pred c2 /\
  forall out metrics j k,
    NoDup (keys c1) ->
    get_per_class_metrics y_true y_pred c1 = Ok out ->
    Sklearn.prfs_none y_true y_pred = Ok metrics ->
    nth_error (keys c1) j = Some k ->
    exists m, dict_get out k = Some m /\ record_at metrics j m.
Proof.
  intros Hkeys. split.
  - unfold get_per_class_metrics. now rewrite Hkeys.
  - intros out metrics j k Hnd Hout Hm Hj.
    destruct (get_per_class_metrics_shape _ _ _ _ Hnd Hout)
      as (metrics' & recs & Hm' & Hlen & Hrec & ->).
    rewrite Hm in Hm'. apply Ok_inj in Hm'. subst metrics'.
    destruct (nth_error recs j) as [m|] eqn:Hr.
    + exists m. split; [|now apply Hrec].
      apply dict_get_In.
      * apply Permutation_NoDup with (l := keys (combine (keys c1) recs)).
        -- apply Permutation_map. symmetry. apply sorted_reverse_perm.
        -- now rewrite keys_combine.
      * apply Permutation_in with (l := combine (keys c1) recs).
        -- symmetry. apply sorted_reverse_perm.
        -- apply nth_error_In with (n := j).
           clear - Hj Hr. revert j recs Hj Hr.
           induction (keys c1) as [|k0 ks IH]; intros [|j] [|r0 recs];
             simpl; try discriminate.
           ++ now intros [= ->] [= ->].
           ++ apply IH.
    + apply nth_error_None in Hr.
      assert (j < List.length (keys c1))%nat
        by (apply nth_error_Some; congruence).
      lia.
Qed.

Lemma per_class_reads_key_order_only_witness :
  get_per_class_metrics [0; 0; 1; 1] [0; 1; 1; 1] [("a", 1); ("b", 0)] =
  get_per_class_metrics [0; 0; 1; 1] [0; 1; 1; 1] [("a", 0); ("b", 1)].
Proof.
  apply (per_class_reads_key_order_only [0; 0; 1; 1] [0; 1; 1; 1]
           [("a", 1); ("b", 0)] [("a", 0); ("b", 1)]).
  reflexivity.
Defined.

(** ** Strings and the slicing functions *)

Lemma startswith_spec needle s :
  Str.startswith needle s = true <-> exists post, s = needle ++ post.
Proof.
  revert s. induction needle as [|a needle IH]; intros s; simpl.
  - split; [intros _; now exists s|reflexivity].
  - destruct s as [|b s].
    + split; [discriminate|]. intros [post H]. discriminate H.
    + rewrite andb_true_iff, Ascii.eqb_eq, IH. split.
      * intros [-> [post ->]]. now exists post.
      * intros [post [= -> ->]]. split; [reflexivity|now exists post].
Qed.

Lemma contains_spec needle s :
  Str.contains needle s = true <-> occurs_in needle s.
Proof.
  unfold occurs_in. induction s as [|c s IH].
  - simpl. rewrite orb_false_r, startswith_spec. split.
    + intros [post H]. now exists "", post.
    + intros [[|c pre] [post H]]; [now exists post|discriminate H].
  - change (Str.contains needle (String c s))
      with (Str.startswith needle (String c s) || Str.contains needle s).
    rewrite orb_true_iff, startswith_spec, IH. split.
    + intros [[post H]|(pre & post & H)].
      * now exists "", post.
      * exists (String c pre), post. simpl. now rewrite H.
    + intros [[|c' pre] [post H]].
      * left. now exists post.
      * right. simpl in H. injection H as -> ->. now exists pre, post.
Qed.

Lemma lower_append a b : Str.lower (a ++ b) = Str.lower a ++ Str.lower b.
Proof. induction a as [|c a IH]; simpl; [reflexivity|now rewrite IH]. Qed.

Lemma lower_split s a b :
  Str.lower s = a ++ b ->
  exists s1 s2, s = s1 ++ s2 /\ Str.lower s1 = a /\ Str.lower s2 = b.
Proof.
  revert s. induction a as [|c a IH]; intros s H.
  - exists "", s. auto.
  - destruct s as [|d s]; [discriminate H|].
    simpl in H. injection H as Hc H. apply IH in H.
    destruct H as (s1 & s2 & -> & <- & <-).
    exists (String d s1), s2. simpl. now rewrite Hc.
Qed.

Lemma contains_lower_spec needle s :
  Str.contains (Str.lower needle) (Str.lower s) = true <->
  occurs_in_ignoring_case needle s.
Proof.
  rewrite contains_spec. unfold occurs_in, occurs_in_ignoring_case. split.
  - intros (pre' & post' & H). apply lower_split in H.
    destruct H as (pre & rest & -> & _ & H). apply lower_split in H.
    destruct H as (mid & post & -> & H & _). now exists pre, mid, post.
  - intros (pre & mid & post & -> & H).
    exists (Str.lower pre), (Str.lower post).
    now rewrite !lower_append, H.
Qed.

(** C7. [nlp_llm] holds exactly for the examples whose tag contains
    natural-language-processing and whose text contains, whatever the case of
    its letters, one of transformer, llm, bert; the example with that tag and
    the text A new BERT model is one of them. *)
Theorem nlp_llm_spec :
  (forall x : example,
     nlp_llm x = true <->
     occurs_in "natural-language-processing" (tag x) /\
     exists term, In term ["transformer"; "llm"; "bert"] /\
                  occurs_in_ignoring_case term (text x)) /\
  nlp_llm {| text := "A new BERT model";
             tag := "natural-language-processing" |} = true.
Proof.
  split; [|reflexivity].
  intros x. unfold nlp_llm. cbv zeta.
  rewrite andb_true_iff, contains_spec, existsb_exists.
  split; intros [Htag (term & Hin & H)]; (split; [assumption|]);
    exists term; (split; [assumption|]); now apply contains_lower_spec.
Qed.

Lemma token_snoc w c :
  Str.isspace c = false -> (w = "" \/ token w) -> token (w ++ String c "").
Proof.
  intros Hc Hw. split.
  - destruct w; discriminate.
  - assert (H : all_chars (fun c => negb (Str.isspace c)) w = true).
    { destruct Hw as [->|[_ H]]; [reflexivity|assumption]. }
    clear Hw. induction w as [|d w IH]; simpl in *.
    + now rewrite Hc.
    + apply andb_true_iff in H. destruct H as [-> H]. now apply IH.
Qed.

Lemma split_from_tokens s :
  forall cur,
    match cur with Some w => token w | None => True end ->
    Forall token (Str.split_from cur s).
Proof.
  induction s as [|c s IH]; intros cur Hcur; simpl.
  - destruct cur; [now constructor|constructor].
  - destruct (Str.isspace c) eqn:Hc.
    + destruct cur; [constructor; [assumption|]|]; now apply IH.
    + apply IH. destruct cur as [w|].
      * apply token_snoc; auto.
      * apply (token_snoc "" c); auto.
Qed.

Lemma split_tokens s : Forall token (Str.split s).
Proof. now apply split_from_tokens. Qed.

(** ** The slice metrics *)

Local Open Scope list_scope.
Local Open Scope Z_scope.

Lemma mean_singleton x : (Np.mean [x] == x)%Q.
Proof. unfold Np.mean. rewrite Qred_correct. simpl. field. Qed.

Lemma prf_divide_ratio n d : (Sklearn.prf_divide n d == ratio n d)%Q.
Proof.
  unfold Sklearn.prf_divide, ratio.
  destruct (d =? 0); [reflexivity|apply Qred_correct].
Qed.

Lemma f_score_harmonic p r p' r' :
  (p == p')%Q -> (r == r')%Q -> (0 <= p)%Q -> (0 <= r)%Q ->
  (Sklearn.f_score p r == harmonic_mean p' r')%Q.
Proof.
  intros Hp Hr Hp0 Hr0. unfold Sklearn.f_score, harmonic_mean.
  rewrite Qred_correct.
  destruct (Qeq_bool (p + r) 0) eqn:E, (Qeq_bool (p' + r') 0) eqn:E'.
  - apply Qeq_bool_iff in E.
    assert (H : (p == 0)%Q) by lra. rewrite H. field.
  - apply Qeq_bool_iff in E. apply Qeq_bool_neq in E'.
    exfalso. apply E'. now rewrite <- Hp, <- Hr.
  - apply Qeq_bool_iff in E'. apply Qeq_bool_neq in E.
    exfalso. apply E. now rewrite Hp, Hr.
  - now rewrite Hp, Hr.
Qed.

Lemma predicted_split l T P :
  List.length T = List.length P ->
  Sklearn.count_label l P = true_positives l T P + false_positives l T P.
Proof.
  unfold Sklearn.count_label, true_positives, false_positives, count_where.
  rewrite <- Nat2Z.inj_add. intros H. f_equal. revert P H.
  induction T as [|t T IH]; intros [|p P]; simpl;
    try discriminate; [reflexivity|].
  intros [= H]. specialize (IH P H).
  destruct (Z.eqb_spec t l), (Z.eqb_spec p l), (Z.eqb_spec l p);
    simpl; try lia; congruence.
Qed.

Lemma actual_split l T P :
  List.length T = List.length P ->
  Sklearn.count_label l T = true_positives l T P + false_negatives l T P.
Proof.
  unfold Sklearn.count_label, true_positives, false_negatives, count_where.
  rewrite <- Nat2Z.inj_add. intros H. f_equal. revert P H.
  induction T as [|t T IH]; intros [|p P]; simpl;
    try discriminate; [reflexivity|].
  intros [= H]. specialize (IH P H).
  destruct (Z.eqb_spec t l), (Z.eqb_spec p l), (Z.eqb_spec l t);
    simpl; try lia; congruence.
Qed.

Lemma pooled_tp_sum T P :
  Np.Zsum (map Sklearn.tp_sum (stats_of T P)) = pooled true_positives T P.
Proof. now rewrite tp_sum_stats_of. Qed.

Lemma pooled_pred_sum T P :
  List.length T = List.length P ->
  Np.Zsum (map Sklearn.pred_sum (stats_of T P)) =
  pooled true_positives T P + pooled false_positives T P.
Proof.
  intros H. rewrite pred_sum_stats_of. unfold pooled.
  rewrite <- Zsum_map_add. f_equal. apply map_ext. intros l.
  now apply predicted_split.
Qed.

Lemma pooled_true_sum T P :
  List.length T = List.length P ->
  Np.Zsum (map Sklearn.true_sum (stats_of T P)) =
  pooled true_positives T P + pooled false_negatives T P.
Proof.
  intros H. rewrite true_sum_stats_of. unfold pooled.
  rewrite <- Zsum_map_add. f_equal. apply map_ext. intros l.
  now apply actual_split.
Qed.

Lemma count_where_nonneg p T P : 0 <= count_where p T P.
Proof. unfold count_where. lia. Qed.

Lemma pooled_nonneg p T P : 0 <= pooled (fun l => count_where (p l)) T P.
Proof.
  unfold pooled. apply Zsum_nonneg, Forall_map, Forall_forall.
  intros l _. apply count_where_nonneg.
Qed.

(** The micro average of the library is the pooled computation. *)
Lemma prfs_micro_pooled T P :
  List.length T = List.length P ->
  exists p r f,
    Sklearn.prfs_micro T P = Ok (p, r, f) /\
    (p == micro_precision T P)%Q /\
    (r == micro_recall T P)%Q /\
    (f == micro_f1 T P)%Q.
Proof.
  intros H. unfold Sklearn.prfs_micro.
  rewrite multilabel_confusion_matrix_ok by assumption. simpl bind.
  fold (stats_of T P).
  rewrite pooled_tp_sum, pooled_pred_sum, pooled_true_sum by assumption.
  do 3 eexists. split; [reflexivity|].
  assert (Htp : 0 <= pooled true_positives T P)
    by exact (pooled_nonneg (fun l t p => (t =? l) && (p =? l)) T P).
  assert (Hfp : 0 <= pooled false_positives T P)
    by exact (pooled_nonneg (fun l t p => negb (t =? l) && (p =? l)) T P).
  assert (Hfn : 0 <= pooled false_negatives T P)
    by exact (pooled_nonneg (fun l t p => (t =? l) && negb (p =? l)) T P).
  simpl map. rewrite !mean_singleton.
  unfold Sklearn.fscore_of, Sklearn.precision_of, Sklearn.recall_of,
    Sklearn.tp_sum, Sklearn.pred_sum, Sklearn.true_sum. simpl fst. simpl snd.
  split; [apply prf_divide_ratio|]. split; [apply prf_divide_ratio|].
  unfold micro_f1, micro_precision, micro_recall.
  apply f_score_harmonic; try apply prf_divide_ratio;
    apply prf_divide_unit; lia.
Qed.

Lemma bool_index_ok a mask :
  List.length a = List.length mask ->
  Np.bool_index a mask = Ok (select a mask).
Proof.
  intros H. unfold Np.bool_index. now rewrite H, Nat.eqb_refl.
Qed.

Lemma select_length a mask :
  List.length a = List.length mask ->
  List.length (select a mask) = count_true mask.
Proof.
  unfold select, count_true. rewrite length_map. revert mask.
  induction a as [|x a IH]; intros [|b mask]; simpl; try discriminate;
    [reflexivity|].
  intros [= H]. destruct b; simpl; now rewrite IH.
Qed.

Lemma sum_mask_count mask : Np.sum_mask mask = Z.of_nat (count_true mask).
Proof.
  unfold count_true. induction mask as [|b mask IH]; [reflexivity|].
  cbn [Np.sum_mask fold_right filter]. fold (Np.sum_mask mask). rewrite IH.
  destruct b; cbn [Z.b2z List.length]; lia.
Qed.

Lemma astype_bool_apply (sf : example -> bool) df :
  Np.astype_bool (map (fun x => Z.b2z (sf x)) df) = map sf df.
Proof.
  unfold Np.astype_bool. rewrite map_map. apply map_ext.
  intros x. now destruct (sf x).
Qed.

Lemma In_applier_columns sfs df k col :
  In (k, col) (applier_columns sfs df) <->
  exists sf, In (k, sf) sfs /\ col = map (fun x => Z.b2z (sf x)) df.
Proof.
  unfold applier_columns. rewrite in_map_iff. split.
  - intros ([k' sf] & Heq & Hin). simpl in Heq. injection Heq as -> <-.
    now exists sf.
  - intros (sf & Hin & ->). now exists (k, sf).
Qed.

Lemma NoDup_keys_functional {V : Type} (d : list (string * V)) k v v' :
  NoDup (map fst d) -> In (k, v) d -> In (k, v') d -> v = v'.
Proof.
  induction d as [|[k0 v0] d IH]; simpl; [contradiction|].
  intros Hnd H1 H2. inversion Hnd as [|? ? Hnot Hnd']; subst.
  destruct H1 as [H1|H1], H2 as [H2|H2]; auto.
  - congruence.
  - injection H1 as -> ->. exfalso. apply Hnot.
    now apply (in_map fst) in H2.
  - injection H2 as -> ->. exfalso. apply Hnot.
    now apply (in_map fst) in H1.
Qed.

(** What the loop over the slices leaves in the dictionary, when the arrays
    and every column have the same length: it returns; a key it holds was
    there before or belongs to a column with a true entry, whose record it
    carries; a key it lacks was absent before and belongs to no column with
    a true entry. *)
Lemma slice_loop_spec T P slices :
  List.length T = List.length P ->
  Forall (fun s => List.length (snd s) = List.length T) slices ->
  forall acc, exists out,
    slice_loop T P slices acc = Ok out /\
    forall k,
      (forall m, dict_get out k = Some m ->
         dict_get acc k = Some m \/
         exists col, In (k, col) slices /\
                     count_true (Np.astype_bool col) <> 0%nat /\
                     slice_record T P (Np.astype_bool col) m) /\
      (dict_get out k = None ->
         dict_get acc k = None /\
         forall col, In (k, col) slices ->
                     count_true (Np.astype_bool col) = 0%nat).
Proof.
  intros Hlen Hall. induction Hall as [|[name col] slices Hcol _ IH];
    intros acc.
  - exists acc. split; [reflexivity|]. intros k. split.
    + intros m Hm. now left.
    + intros Hn. split; [assumption|]. intros col [].
  - simpl in Hcol. cbn [slice_loop]. set (mask := Np.astype_bool col).
    assert (Hmask : List.length mask = List.length T).
    { unfold mask, Np.astype_bool. now rewrite length_map. }
    rewrite sum_mask_count.
    destruct (Z.eqb_spec (Z.of_nat (count_true mask)) 0) as [Hz|Hnz];
      cbn [negb].
    + destruct (IH acc) as (out & Hout & Hinv). exists out.
      split; [assumption|]. intros k. destruct (Hinv k) as [Ha Hb]. split.
      * intros m Hm. destruct (Ha m Hm) as [|(col' & Hin & H)]; [now left|].
        right. exists col'. split; [now right|assumption].
      * intros Hn. destruct (Hb Hn) as [Hacc Hzero]. split; [assumption|].
        intros col' [[= <- <-]|Hin]; [fold mask; lia|now apply Hzero].
    + rewrite !bool_index_ok by congruence. cbn [bind].
      destruct (prfs_micro_pooled (select T mask) (select P mask))
        as (p & r & f & Hm & Hp & Hr & Hf).
      { rewrite !select_length; congruence. }
      rewrite Hm. cbn [bind fst snd].
      set (rec := {| precision := p; recall := r; f1 := f;
                     num_samples := Int (len (select T mask)) |}).
      assert (Hrec : slice_record T P mask rec).
      { unfold slice_record, rec. cbn [precision recall f1 num_samples].
        repeat (split; [assumption|]).
        unfold len. now rewrite select_length by congruence. }
      destruct (IH (dict_set acc name rec)) as (out & Hout & Hinv).
      exists out. split; [assumption|]. intros k.
      destruct (Hinv k) as [Ha Hb]. split.
      * intros m Hget. destruct (Ha m Hget) as [Hset|(col' & Hin & H)].
        -- destruct (string_dec k name) as [->|Hne].
           ++ rewrite dict_get_dict_set_eq in Hset. apply eq_sym in Hset.
              injection Hset as ->. right. exists col.
              split; [now left|]. split; [fold mask; lia|assumption].
           ++ rewrite dict_get_dict_set_neq in Hset by assumption. now left.
        -- right. exists col'. split; [now right|assumption].
      * intros Hn. destruct (Hb Hn) as [Hset Hzero].
        destruct (string_dec k name) as [->|Hne].
        -- now rewrite dict_get_dict_set_eq in Hset.
        -- rewrite dict_get_dict_set_neq in Hset by assumption.
           split; [assumption|].
           intros col' [[= <- <-]|Hin]; [contradiction|now apply Hzero].
Qed.

(** The entries of the result of the loop run on the columns the applier
    computes, slicing function by slicing function and key by key. *)
Lemma slice_loop_entries (sfs : list slicing_function) T P df :
  NoDup (map fst sfs) ->
  List.length T = List.length df -> List.length P = List.length df ->
  exists out,
    slice_loop T P (applier_columns sfs df) [] = Ok out /\
    (forall name sf, In (name, sf) sfs ->
       (count_true (map sf df) = 0%nat -> dict_get out name = None) /\
       (count_true (map sf df) <> 0%nat ->
        exists m, dict_get out name = Some m /\
                  slice_record T P (map sf df) m)) /\
    (forall name m, dict_get out name = Some m ->
       exists sf, In (name, sf) sfs /\
                  count_true (map sf df) <> 0%nat /\
                  slice_record T P (map sf df) m).
Proof.
  intros Hnd HT HP.
  destruct (slice_loop_spec T P (applier_columns sfs df))
    with (acc := @nil (string * MetricRecord)) as (out & Hout & Hinv).
  { congruence. }
  { apply Forall_forall. intros [k col] Hin. apply In_applier_columns in Hin.
    destruct Hin as (sf & _ & ->). simpl. rewrite length_map. congruence. }
  assert (Hsome : forall name m, dict_get out name = Some m ->
            exists sf, In (name, sf) sfs /\
                       count_true (map sf df) <> 0%nat /\
                       slice_record T P (map sf df) m).
  { intros name m Hm.
    destruct (proj1 (Hinv name) m Hm) as [H|(col & Hc & H)]; [discriminate H|].
    apply In_applier_columns in Hc. destruct Hc as (sf & Hin & ->).
    exists sf. split; [assumption|]. now rewrite astype_bool_apply in H. }
  exists out. split; [assumption|]. split; [|assumption].
  intros name sf Hin.
  assert (Hcol : In (name, map (fun x => Z.b2z (sf x)) df)
                   (applier_columns sfs df)).
  { apply In_applier_columns. now exists sf. }
  destruct (dict_get out name) as [m|] eqn:Hget.
  - destruct (Hsome name m Hget) as (sf' & Hin' & Hc & Hr).
    rewrite <- (NoDup_keys_functional sfs name sf sf' Hnd Hin Hin') in Hc, Hr.
    split; [intros; contradiction|]. intros _. now exists m.
  - destruct (proj2 (Hinv name) Hget) as [_ Hzero].
    specialize (Hzero _ Hcol). rewrite astype_bool_apply in Hzero.
    split; [reflexivity|]. intros; contradiction.
Qed.

Lemma dict_get_None_keys {V : Type} (d : dict V) k :
  dict_get d k = None -> ~ In k (keys d).
Proof.
  induction d as [|[k0 v0] d IH]; simpl; [tauto|].
  destruct (String.eqb_spec k0 k) as [->|Hne]; [discriminate|].
  intros H [Heq|Hin]; [contradiction|now apply IH].
Qed.

Lemma dict_get_keys {V : Type} (d : dict V) k :
  In k (keys d) -> exists v, dict_get d k = Some v.
Proof.
  intros Hin. destruct (dict_get d k) as [v|] eqn:E; [now exists v|].
  now apply dict_get_None_keys in E.
Qed.

Lemma Some_inj {A : Type} (a b : A) : Some a = Some b -> a = b.
Proof. congruence. Qed.

Lemma applier_columns_cons name (sf : example -> bool) sfs df :
  applier_columns ((name, sf) :: sfs) df =
  (name, map (fun x => Z.b2z (sf x)) df) :: applier_columns sfs df.
Proof. reflexivity. Qed.

(** The loop appends the names of the slicing functions with a match, in
    the order of the list. *)
Lemma slice_loop_keys T P df (sfs : list slicing_function) :
  forall acc out,
    NoDup (keys acc ++ map fst sfs) ->
    slice_loop T P (applier_columns sfs df) acc = Ok out ->
    keys out = keys acc ++ map fst (filter (matches df) sfs).
Proof.
  induction sfs as [|[name sf] sfs IH]; intros acc out Hnd.
  - cbn. intros H. apply Ok_inj in H. subst out. now rewrite app_nil_r.
  - rewrite applier_columns_cons. cbn [slice_loop].
    rewrite astype_bool_apply, sum_mask_count. unfold matches at 1.
    cbn [filter snd fst map].
    destruct (Nat.eqb_spec (count_true (map sf df)) 0) as [Hz|Hnz].
    + rewrite Hz. cbn [Z.of_nat Z.eqb negb]. apply IH.
      apply NoDup_remove_1 in Hnd. exact Hnd.
    + destruct (Z.eqb_spec (Z.of_nat (count_true (map sf df))) 0) as [|_];
        [lia|]. cbn [negb].
      destruct (Np.bool_index T (map sf df)) as [yt|]; [|discriminate].
      cbn [bind].
      destruct (Np.bool_index P (map sf df)) as [yp|]; [|discriminate].
      cbn [bind].
      destruct (Sklearn.prfs_micro yt yp) as [metrics|]; [|discriminate].
      cbn [bind]. intros Hout.
      assert (Hfresh : ~ In name (keys acc)).
      { apply NoDup_remove_2 in Hnd. intros Hin. apply Hnd.
        apply in_or_app. now left. }
      rewrite dict_set_fresh in Hout by assumption.
      apply IH in Hout.
      * rewrite Hout. unfold keys. rewrite map_app, <- app_assoc.
        reflexivity.
      * unfold keys in *. rewrite map_app, <- app_assoc. exact Hnd.
Qed.

Lemma bool_index_Ok_inv a mask r :
  Np.bool_index a mask = Ok r ->
  List.length a = List.length mask /\ r = select a mask.
Proof.
  unfold Np.bool_index.
  destruct (Nat.eqb_spec (List.length a) (List.length mask)) as [H|_];
    [|discriminate].
  intros Hr. apply Ok_inj in Hr. now split.
Qed.

(** A record the loop adds counts at least one sample. *)
Lemma slice_loop_samples T P slices :
  forall acc out,
    slice_loop T P slices acc = Ok out ->
    forall k m, dict_get out k = Some m ->
      dict_get acc k = Some m \/
      exists n, num_samples m = Int n /\ 0 < n.
Proof.
  induction slices as [|[name col] slices IH]; intros acc out.
  - cbn. intros H. apply Ok_inj in H. subst out. intros k m Hm. now left.
  - cbn [slice_loop]. rewrite sum_mask_count.
    destruct (Z.eqb_spec (Z.of_nat (count_true (Np.astype_bool col))) 0)
      as [Hz|Hnz]; cbn [negb]; [apply IH|].
    destruct (Np.bool_index T (Np.astype_bool col)) as [yt|] eqn:Eyt;
      [|discriminate]. cbn [bind].
    destruct (Np.bool_index P (Np.astype_bool col)) as [yp|]; [|discriminate].
    cbn [bind].
    destruct (Sklearn.prfs_micro yt yp) as [metrics|]; [|discriminate].
    cbn [bind]. intros Hout k m Hm.
    destruct (IH _ _ Hout k m Hm) as [Hset|Hn]; [|now right].
    destruct (string_dec k name) as [->|Hne].
    + rewrite dict_get_dict_set_eq in Hset. apply Some_inj in Hset.
      subst m. right. cbn [num_samples]. eexists. split; [reflexivity|].
      apply bool_index_Ok_inv in Eyt. destruct Eyt as [Hlen ->].
      unfold len. rewrite select_length by assumption. lia.
    + rewrite dict_get_dict_set_neq in Hset by assumption. now left.
Qed.

Lemma count_true_nonempty (sf : example -> bool) df :
  count_true (map sf df) <> 0%nat -> df <> [].
Proof. intros H ->. now apply H. Qed.

(** On a data frame with rows the applier returns the columns; on one
    without rows the call ends with the [ValueError] of the applier. *)
Lemma slice_metrics_of_nonempty sfs T P df :
  df <> [] ->
  slice_metrics_of sfs T P df = slice_loop T P (applier_columns sfs df) [].
Proof.
  intros Hne. unfold slice_metrics_of, applier_apply.
  destruct df; [contradiction|reflexivity].
Qed.

Lemma slice_metrics_of_empty sfs T P :
  slice_metrics_of sfs T P [] = Raise ValueError.
Proof. reflexivity. Qed.

Lemma slice_metrics_of_Ok_inv sfs T P df out :
  slice_metrics_of sfs T P df = Ok out ->
  df <> [] /\ slice_loop T P (applier_columns sfs df) [] = Ok out.
Proof.
  intros H. destruct df as [|x df]; [discriminate H|].
  split; [discriminate|exact H].
Qed.

(** C4. For a slicing function that holds of at least one example, the slice
    metrics carry under its name the micro averages over the selected
    samples, that is the precision, recall and F1 of the true positives,
    false positives and false negatives pooled over the classes, and as
    num_samples the number of true mask entries, an [int]. *)
Theorem slice_metrics_micro_average (sfs : list slicing_function)
    (y_true y_pred : list Z) (df : list example)
    (name : string) (sf : example -> bool) :
  NoDup (map fst sfs) -> In (name, sf) sfs ->
  List.length y_true = List.length df ->
  List.length y_pred = List.length df ->
  (0 < count_true (map sf df))%nat ->
  let mask := map sf df in
  exists out m,
    slice_metrics_of sfs y_true y_pred df = Ok out /\
    dict_get out name = Some m /\
    (precision m == micro_precision (select y_true mask) (select y_pred mask))%Q /\
    (recall m == micro_recall (select y_true mask) (select y_pred mask))%Q /\
    (f1 m == micro_f1 (select y_true mask) (select y_pred mask))%Q /\
    num_samples m = Int (Z.of_nat (count_true mask)).
Proof.
  intros Hnd Hin HT HP Hpos mask.
  destruct (slice_loop_entries sfs y_true y_pred df Hnd HT HP)
    as (out & Hout & Hent & _).
  destruct (proj2 (Hent name sf Hin)) as (m & Hm & Hrec); [lia|].
  exists out, m. rewrite slice_metrics_of_nonempty.
  - split; [assumption|]. split; assumption.
  - apply (count_true_nonempty sf). lia.
Qed.

Lemma slice_metrics_micro_average_witness :
  let df := [ {| text := "a b c"; tag := "other" |};
              {| text := "bert for short"; tag := "other" |};
              {| text := "a b c d e f g h i"; tag := "other" |} ] in
  let mask := [true; true; false] in
  let T := [0; 1; 1] in
  let P := [0; 0; 1] in
  exists out m,
    get_slice_metrics T P df = Ok out /\
    dict_get out "short_text" = Some m /\
    (precision m == micro_precision (select T mask) (select P mask))%Q /\
    (recall m == micro_recall (select T mask) (select P mask))%Q /\
    (f1 m == micro_f1 (select T mask) (select P mask))%Q /\
    num_samples m = Int 2.
Proof.
  intros df mask T P.
  apply (slice_metrics_micro_average
           [("nlp_llm", nlp_llm); ("short_text", short_text)]
           [0; 1; 1] [0; 0; 1] df "short_text" short_text).
  - simpl. repeat constructor; simpl; intuition discriminate.
  - simpl. right. left. reflexivity.
  - reflexivity.
  - reflexivity.
  - vm_compute. lia.
Defined.

(** C5. Whenever the slice metrics are returned, a slicing function that
    holds of no example has left no key in them, and every key they hold has
    a num_samples greater than zero. (They are returned when the data frame
    has rows and as many as each label array has entries; on a data frame
    without rows the applier raises.) *)
Theorem slice_metrics_omit_empty_slices (sfs : list slicing_function)
    (y_true y_pred : list Z) (df : list example) :
  NoDup (map fst sfs) ->
  (df <> [] ->
   List.length y_true = List.length df ->
   List.length y_pred = List.length df ->
   exists out, slice_metrics_of sfs y_true y_pred df = Ok out) /\
  forall out,
    slice_metrics_of sfs y_true y_pred df = Ok out ->
    (forall name sf, In (name, sf) sfs ->
       count_true (map sf df) = 0%nat -> ~ In name (keys out)) /\
    (forall name, In name (keys out) ->
       exists m n, dict_get out name = Some m /\
                   num_samples m = Int n /\ 0 < n).
Proof.
  intros Hnd. split.
  - intros Hne HT HP.
    destruct (slice_loop_entries sfs y_true y_pred df Hnd HT HP)
      as (out & Hout & _).
    exists out. now rewrite slice_metrics_of_nonempty.
  - intros out Hout. apply slice_metrics_of_Ok_inv in Hout.
    destruct Hout as [_ Hout]. split.
    + intros name sf Hin Hzero Hkey.
      rewrite (slice_loop_keys _ _ _ _ [] out Hnd Hout) in Hkey.
      cbn [keys map app] in Hkey. apply in_map_iff in Hkey.
      destruct Hkey as ([name' sf'] & Hname & Hfil). cbn [fst] in Hname.
      subst name'. apply filter_In in Hfil. destruct Hfil as [Hin' Hmatch].
      rewrite <- (NoDup_keys_functional sfs name sf sf' Hnd Hin Hin') in Hmatch.
      unfold matches in Hmatch. cbn [snd] in Hmatch.
      rewrite Hzero in Hmatch. discriminate Hmatch.
    + intros name Hin. destruct (dict_get_keys out name Hin) as [m Hm].
      destruct (slice_loop_samples _ _ _ _ _ Hout name m Hm)
        as [Hacc|(n & Hn & Hpos)]; [discriminate Hacc|].
      now exists m, n.
Qed.

Lemma slice_metrics_omit_empty_slices_witness :
  let df := [ {| text := "a b c"; tag := "other" |};
              {| text := "a b c d e f g h i"; tag := "other" |} ] in
  (exists out, get_slice_metrics [0; 1] [0; 0] df = Ok out) /\
  forall out,
    get_slice_metrics [0; 1] [0; 0] df = Ok out ->
    (forall name sf,
       In (name, sf) [("nlp_llm", nlp_llm); ("short_text", short_text)] ->
       count_true (map sf df) = 0%nat -> ~ In name (keys out)) /\
    (forall name, In name (keys out) ->
       exists m n, dict_get out name = Some m /\
                   num_samples m = Int n /\ 0 < n).
Proof.
  intros df.
  destruct (slice_metrics_omit_empty_slices
              [("nlp_llm", nlp_llm); ("short_text", short_text)]
              [0; 1] [0; 0] df) as [Hret Hprop].
  - simpl. repeat constructor; simpl; intuition discriminate.
  - split; [|exact Hprop].
    apply Hret; [discriminate|reflexivity|reflexivity].
Defined.

Lemma append_assoc (a b c : string) :
  ((a ++ b) ++ c = a ++ (b ++ c))%string.
Proof. induction a as [|x a IH]; simpl; [reflexivity|now rewrite IH]. Qed.

Lemma append_nil_r (a : string) : (a ++ "" = a)%string.
Proof. induction a as [|x a IH]; simpl; [reflexivity|now rewrite IH]. Qed.

(** [cur] extended by the characters of a word. *)
Lemma split_from_word w : forall cur s,
  all_chars (fun c => negb (Str.isspace c)) w = true ->
  w <> EmptyString ->
  Str.split_from cur (w ++ s)%string =
  Str.split_from
    (Some (match cur with Some c => (c ++ w)%string | None => w end)) s.
Proof.
  induction w as [|c w IH]; intros cur s Hw Hne; [contradiction|].
  simpl in Hw. apply andb_true_iff in Hw. destruct Hw as [Hc Hw].
  apply negb_true_iff in Hc. simpl. rewrite Hc.
  destruct w as [|d w].
  - simpl. reflexivity.
  - rewrite IH by (assumption || discriminate). f_equal. f_equal.
    destruct cur as [u|]; [|reflexivity].
    now rewrite append_assoc.
Qed.

Lemma split_from_None_space sp : forall s,
  whitespace sp ->
  Str.split_from None (sp ++ s)%string = Str.split_from None s.
Proof.
  unfold whitespace. induction sp as [|c sp IH]; intros s H; [reflexivity|].
  simpl in H. apply andb_true_iff in H. destruct H as [Hc H].
  simpl. rewrite Hc. now apply IH.
Qed.

Lemma split_from_Some_space sp w s :
  whitespace sp -> sp <> EmptyString ->
  Str.split_from (Some w) (sp ++ s)%string = w :: Str.split_from None s.
Proof.
  unfold whitespace. destruct sp as [|c sp]; intros H Hne; [contradiction|].
  simpl in H. apply andb_true_iff in H. destruct H as [Hc H].
  simpl. rewrite Hc. f_equal. now apply split_from_None_space.
Qed.

Lemma split_from_trailing cur trail :
  whitespace trail ->
  Str.split_from cur trail =
  match cur with Some w => [w] | None => [] end.
Proof.
  intros H. destruct cur as [w|].
  - destruct trail as [|c trail]; [reflexivity|].
    rewrite <- (append_nil_r (String c trail)).
    rewrite split_from_Some_space; [reflexivity|assumption|discriminate].
  - rewrite <- (append_nil_r trail). now rewrite split_from_None_space.
Qed.

Lemma string_length_append (a b : string) :
  String.length (a ++ b)%string = (String.length a + String.length b)%nat.
Proof. induction a as [|c a IH]; simpl; [reflexivity|now rewrite IH]. Qed.

(** The longest prefix whose characters all satisfy [p]. *)
Lemma span (p : ascii -> bool) (s : string) :
  exists a b,
    s = (a ++ b)%string /\ all_chars p a = true /\
    match b with
    | EmptyString => True
    | String c _ => p c = false
    end.
Proof.
  induction s as [|c s IH].
  - exists ""%string, ""%string. auto.
  - destruct (p c) eqn:E.
    + destruct IH as (a & b & -> & Ha & Hb). exists (String c a), b.
      simpl. rewrite E. auto.
    + exists ""%string, (String c s). simpl. auto.
Qed.

(** [str.split()] computes the tokens of the specification ... *)
Lemma splits_into_split s ws : splits_into s ws -> Str.split s = ws.
Proof.
  induction 1 as [sp Hsp|sp w rest ws Hsp [Hw0 Hw] Hend Hrest IH].
  - exact (split_from_trailing None sp Hsp).
  - unfold Str.split in *. rewrite split_from_None_space by assumption.
    rewrite split_from_word by assumption.
    destruct rest as [|c rest].
    + simpl in *. now rewrite <- IH.
    + simpl in Hend. simpl in *. rewrite Hend in *. now rewrite IH.
Qed.

(** ... and every text has such tokens. *)
Lemma splits_total n : forall s,
  (String.length s <= n)%nat -> exists ws, splits_into s ws.
Proof.
  induction n as [|n IH]; intros s Hlen.
  - destruct s; [|simpl in Hlen; lia]. exists []. now constructor.
  - destruct (span Str.isspace s) as (sp & s1 & -> & Hsp & Hs1).
    destruct s1 as [|c s1].
    + exists []. rewrite append_nil_r. now constructor.
    + destruct (span (fun c => negb (Str.isspace c)) (String c s1))
        as (w & rest & Heq & Hw & Hrest).
      assert (Hw0 : w <> EmptyString).
      { intros ->. simpl in Heq. subst rest. rewrite Hs1 in Hrest.
        discriminate Hrest. }
      destruct (IH rest) as [ws Hws].
      { rewrite Heq, !string_length_append in Hlen.
        destruct w; [contradiction|]. simpl in Hlen. lia. }
      exists (w :: ws). rewrite Heq. constructor; try assumption.
      * now split.
      * destruct rest as [|d rest]; simpl; [exact I|].
        now apply negb_false_iff in Hrest.
Qed.

Lemma splits_into_iff s ws : splits_into s ws <-> Str.split s = ws.
Proof.
  split; [apply splits_into_split|]. intros <-.
  destruct (splits_total _ s (le_n _)) as [ws H].
  now rewrite (splits_into_split _ _ H).
Qed.

(** C8. [short_text] holds exactly for the examples whose text splits on
    whitespace into fewer than 8 tokens, the tokens being the maximal runs
    of characters that are not whitespace; on the texts a b c (3 tokens) and
    a b c d e f g h i (9 tokens) the mask is [true, false] and the slice
    metrics have a short_text entry with num_samples 1. *)
Theorem short_text_spec :
  (forall x : example,
     short_text x = true <->
     exists ws, splits_into (text x) ws /\ (List.length ws < 8)%nat) /\
  Str.split "a b c" = ["a"; "b"; "c"] /\
  List.length (Str.split "a b c d e f g h i") = 9%nat /\
  forall tag1 tag2 : string,
    let df := [ {| text := "a b c"; tag := tag1 |};
                {| text := "a b c d e f g h i"; tag := tag2 |} ] in
    map short_text df = [true; false] /\
    forall t1 t2 p1 p2 : Z,
      exists out m,
        get_slice_metrics [t1; t2] [p1; p2] df = Ok out /\
        dict_get out "short_text" = Some m /\
        num_samples m = Int 1.
Proof.
  split; [|split; [reflexivity|split; [reflexivity|]]].
  - intros x. unfold short_text. rewrite Nat.ltb_lt. split.
    + intros Hlt. exists (Str.split (text x)).
      split; [now apply splits_into_iff|assumption].
    + intros (ws & Hws & Hlt). apply splits_into_iff in Hws.
      now rewrite Hws.
  - intros tag1 tag2 df. split; [reflexivity|]. intros t1 t2 p1 p2.
    destruct (slice_loop_entries
                [("nlp_llm", nlp_llm); ("short_text", short_text)]
                [t1; t2] [p1; p2] df) as (out & Hout & Hent & _).
    + simpl. repeat constructor; simpl; intuition discriminate.
    + reflexivity.
    + reflexivity.
    + destruct (proj2 (Hent "short_text" short_text
                         ltac:(simpl; right; left; reflexivity)))
        as (m & Hm & _ & _ & _ & Hn); [discriminate|].
      exists out, m. split; [exact Hout|]. split; [assumption|exact Hn].
Qed.

(** * Further properties *)

(** ** Labels in range *)

Lemma sorted_range_length l : forall a b,
  a <= b -> StronglySorted Z.lt l -> Forall (fun x => a <= x < b) l ->
  Z.of_nat (List.length l) <= b - a.
Proof.
  induction l as [|h t IH]; intros a b Hab Hs Hr; simpl List.length; [lia|].
  inversion Hs as [|? ? Hst Hall]; subst.
  inversion Hr as [|? ? Hh Ht]; subst. cbv beta in Hh.
  assert (Ht' : Forall (fun x => h + 1 <= x < b) t).
  { rewrite Forall_forall in *. intros x Hx.
    specialize (Hall x Hx). specialize (Ht x Hx). lia. }
  specialize (IH (h + 1) b ltac:(lia) Hst Ht'). lia.
Qed.

Lemma sorted_range_full l : forall a n,
  StronglySorted Z.lt l ->
  Forall (fun x => a <= x < a + Z.of_nat n) l ->
  List.length l = n -> l = zrange a n.
Proof.
  induction l as [|h t IH]; intros a n Hs Hr Hlen; simpl in Hlen; subst n;
    [reflexivity|].
  inversion Hs as [|? ? Hst Hall]; subst.
  inversion Hr as [|? ? Hh Ht]; subst. cbv beta in Hh.
  assert (Ht' : Forall (fun x => h + 1 <= x < a + Z.of_nat (S (List.length t))) t).
  { rewrite Forall_forall in *. intros x Hx.
    specialize (Hall x Hx). specialize (Ht x Hx). lia. }
  pose proof (sorted_range_length t (h + 1)
                (a + Z.of_nat (S (List.length t))) ltac:(lia) Hst Ht') as Hle.
  assert (h = a) by lia. subst h. simpl. f_equal. apply IH; auto.
  rewrite Forall_forall in *. intros x Hx. specialize (Ht' x Hx). lia.
Qed.

Lemma nth_error_zrange n : forall a j,
  (j < n)%nat -> nth_error (zrange a n) j = Some (a + Z.of_nat j).
Proof.
  induction n as [|n IH]; intros a [|j] Hj; simpl; try lia.
  - f_equal. lia.
  - rewrite IH by lia. f_equal. lia.
Qed.

Lemma In_zrange n : forall a x,
  In x (zrange a n) <-> a <= x < a + Z.of_nat n.
Proof.
  induction n as [|n IH]; intros a x; simpl; [lia|].
  rewrite IH. lia.
Qed.

Lemma length_zrange n : forall a, List.length (zrange a n) = n.
Proof. induction n as [|n IH]; intros a; simpl; [reflexivity|now rewrite IH]. Qed.

Lemma NoDup_zrange n : forall a, NoDup (zrange a n).
Proof.
  induction n as [|n IH]; intros a; simpl; constructor; [|apply IH].
  rewrite In_zrange. lia.
Qed.

Lemma unique_labels_in_range K y_true y_pred :
  in_range K y_true -> in_range K y_pred ->
  Forall (fun x => 0 <= x < 0 + Z.of_nat K)
    (Sklearn.unique_labels y_true y_pred).
Proof.
  unfold in_range. rewrite !Forall_forall. intros HT HP x Hx.
  apply In_unique_labels in Hx. destruct Hx as [Hx|Hx];
    [specialize (HT x Hx)|specialize (HP x Hx)]; lia.
Qed.

(** With labels below [K], at least [K] labels in the data means that the
    labels are exactly 0, ..., K - 1. *)
Lemma unique_labels_full K y_true y_pred :
  in_range K y_true -> in_range K y_pred ->
  (K <= List.length (Sklearn.unique_labels y_true y_pred))%nat ->
  Sklearn.unique_labels y_true y_pred = zrange 0 K.
Proof.
  intros HT HP Hle.
  pose proof (unique_labels_in_range K _ _ HT HP) as Hr.
  pose proof (unique_labels_sorted y_true y_pred) as Hs.
  pose proof (sorted_range_length _ 0 (0 + Z.of_nat K) ltac:(lia) Hs Hr).
  apply sorted_range_full; auto. lia.
Qed.

(** The labels are 0, ..., K - 1 exactly when each of them occurs. *)
Lemma unique_labels_cover K y_true y_pred :
  in_range K y_true -> in_range K y_pred ->
  ((K <= List.length (Sklearn.unique_labels y_true y_pred))%nat <->
   forall i, 0 <= i < Z.of_nat K -> In i y_true \/ In i y_pred).
Proof.
  intros HT HP. split.
  - intros Hle i Hi. apply In_unique_labels.
    rewrite (unique_labels_full K) by assumption. apply In_zrange. lia.
  - intros Hall. rewrite <- (length_zrange K 0).
    apply NoDup_incl_length; [apply NoDup_zrange|].
    intros i Hi. apply In_zrange in Hi. apply In_unique_labels, Hall. lia.
Qed.

(** ** The outcome of the per-class calculator *)

Lemma get_per_class_metrics_Ok_inv y_true y_pred class_to_index out :
  get_per_class_metrics y_true y_pred class_to_index = Ok out ->
  List.length y_true = List.length y_pred /\
  (List.length class_to_index
     <= List.length (Sklearn.unique_labels y_true y_pred))%nat.
Proof.
  intros Hout.
  destruct (Nat.eq_dec (List.length y_true) (List.length y_pred)) as [Hlen|Hne].
  - split; [assumption|].
    destruct (le_lt_dec (List.length class_to_index)
                (List.length (Sklearn.unique_labels y_true y_pred)))
      as [Hle|Hlt]; [assumption|].
    rewrite get_per_class_metrics_index_error in Hout by assumption.
    discriminate.
  - unfold get_per_class_metrics in Hout.
    rewrite prfs_none_mismatch in Hout by assumption. discriminate.
Qed.

(** X1. The three outcomes of [get_per_class_metrics]: arrays of different
    lengths give the [ValueError] of the library, whatever the mapping;
    arrays of one length in which fewer labels occur than the mapping has
    classes give [IndexError]; in every other case a mapping is returned. *)
Theorem per_class_outcome (y_true y_pred : list Z) (class_to_index : dict Z) :
  let labels := List.length (Sklearn.unique_labels y_true y_pred) in
  let K := List.length class_to_index in
  (List.length y_true <> List.length y_pred ->
   get_per_class_metrics y_true y_pred class_to_index = Raise ValueError) /\
  (List.length y_true = List.length y_pred -> (labels < K)%nat ->
   get_per_class_metrics y_true y_pred class_to_index = Raise IndexError) /\
  (List.length y_true = List.length y_pred -> (K <= labels)%nat ->
   exists out, get_per_class_metrics y_true y_pred class_to_index = Ok out).
Proof.
  intros labels K. split; [|split].
  - intros Hne. unfold get_per_class_metrics.
    now rewrite prfs_none_mismatch.
  - apply get_per_class_metrics_index_error.
  - apply get_per_class_metrics_returns.
Qed.

Lemma per_class_outcome_witness :
  get_per_class_metrics [0] [] [("a", 0)] = Raise ValueError /\
  get_per_class_metrics [1; 1] [1; 1] [("a", 0); ("b", 1)] = Raise IndexError /\
  exists out,
    get_per_class_metrics [0; 5] [5; 0] [("a", 0); ("b", 1)] = Ok out.
Proof.
  split; [|split].
  - apply (proj1 (per_class_outcome [0] [] [("a", 0)])). simpl. lia.
  - apply (proj1 (proj2 (per_class_outcome [1; 1] [1; 1]
                           [("a", 0); ("b", 1)]))).
    + reflexivity.
    + simpl. lia.
  - apply (proj2 (proj2 (per_class_outcome [0; 5] [5; 0]
                           [("a", 0); ("b", 1)]))).
    + reflexivity.
    + simpl. lia.
Defined.

(** ** The per-class records *)

Lemma stats_of_eq y_true y_pred :
  stats_of y_true y_pred =
  map (fun l => (Sklearn.count_tp l y_true y_pred,
                 Sklearn.count_label l y_pred,
                 Sklearn.count_label l y_true))
    (Sklearn.unique_labels y_true y_pred).
Proof.
  unfold stats_of. rewrite map_map. apply map_ext. intros l.
  apply sums_confusion_of.
Qed.

Lemma prfs_none_eq y_true y_pred metrics :
  Sklearn.prfs_none y_true y_pred = Ok metrics ->
  metrics =
  (map Sklearn.precision_of (stats_of y_true y_pred),
   map Sklearn.recall_of (stats_of y_true y_pred),
   map Sklearn.fscore_of (stats_of y_true y_pred),
   map Sklearn.true_sum (stats_of y_true y_pred)).
Proof.
  unfold Sklearn.prfs_none, Sklearn.multilabel_confusion_matrix.
  destruct (Sklearn.check_consistent_length y_true y_pred); [|discriminate].
  cbn [bind]. intros H. apply Ok_inj in H. now subst metrics.
Qed.

Lemma harmonic_mean_compat p r p' r' :
  (p == p')%Q -> (r == r')%Q -> (harmonic_mean p r == harmonic_mean p' r')%Q.
Proof.
  intros Hp Hr. unfold harmonic_mean.
  destruct (Qeq_bool (p + r) 0) eqn:E, (Qeq_bool (p' + r') 0) eqn:E'.
  - reflexivity.
  - apply Qeq_bool_iff in E. apply Qeq_bool_neq in E'.
    exfalso. apply E'. now rewrite <- Hp, <- Hr.
  - apply Qeq_bool_iff in E'. apply Qeq_bool_neq in E.
    exfalso. apply E. now rewrite Hp, Hr.
  - now rewrite Hp, Hr.
Qed.

(** The record built from the statistics of the label [l] is the classic
    per-class record of [l]. *)
Lemma class_record_of_stats T P l m :
  List.length T = List.length P ->
  let s := (Sklearn.count_tp l T P, Sklearn.count_label l P,
            Sklearn.count_label l T) in
  precision m = Sklearn.precision_of s ->
  recall m = Sklearn.recall_of s ->
  f1 m = Sklearn.fscore_of s ->
  num_samples m = Float64 (inject_Z (Sklearn.true_sum s)) ->
  class_record T P l m.
Proof.
  intros Hlen s Hp Hr Hf Hn. unfold class_record. cbv zeta.
  assert (Hps : (Sklearn.precision_of s ==
                 ratio (true_positives l T P)
                   (true_positives l T P + false_positives l T P))%Q).
  { unfold Sklearn.precision_of, s, Sklearn.tp_sum, Sklearn.pred_sum.
    cbn [fst snd]. rewrite prf_divide_ratio.
    now rewrite (predicted_split l T P Hlen). }
  assert (Hrs : (Sklearn.recall_of s ==
                 ratio (true_positives l T P)
                   (true_positives l T P + false_negatives l T P))%Q).
  { unfold Sklearn.recall_of, s, Sklearn.tp_sum, Sklearn.true_sum.
    cbn [fst snd]. rewrite prf_divide_ratio.
    now rewrite (actual_split l T P Hlen). }
  assert (Hgood : good_stats s).
  { unfold good_stats, s, Sklearn.tp_sum, Sklearn.pred_sum, Sklearn.true_sum.
    cbn [fst snd].
    pose proof (count_tp_nonneg l T P).
    pose proof (count_tp_le_pred l T P).
    pose proof (count_tp_le_true l T P). lia. }
  rewrite Hp, Hr, Hf, Hn.
  split; [assumption|]. split; [assumption|]. split; [|reflexivity].
  unfold Sklearn.fscore_of. apply f_score_harmonic; try assumption.
  - apply (precision_of_unit s Hgood).
  - apply (recall_of_unit s Hgood).
Qed.

Lemma nth_error_combine_inv {A B : Type} (l : list A) (l' : list B) j a b :
  nth_error l j = Some a -> nth_error l' j = Some b ->
  nth_error (combine l l') j = Some (a, b).
Proof.
  revert l l'. induction j as [|j IH]; intros [|x l] [|y l']; simpl;
    try discriminate.
  - now intros [= ->] [= ->].
  - apply IH.
Qed.

(** Looking a class up in the sorted dictionary gives the record that was
    paired with it. *)
Lemma sorted_combine_lookup (ks : list string) (recs : list MetricRecord)
    j k m :
  NoDup ks -> List.length recs = List.length ks ->
  nth_error ks j = Some k -> nth_error recs j = Some m ->
  dict_get (sorted (fun tag => f1 (snd tag)) true (combine ks recs)) k = Some m.
Proof.
  intros Hnd Hlen Hk Hm. apply dict_get_In.
  - apply Permutation_NoDup with (l := keys (combine ks recs)).
    + apply Permutation_map. symmetry. apply sorted_reverse_perm.
    + now rewrite keys_combine.
  - apply Permutation_in with (l := combine ks recs).
    + symmetry. apply sorted_reverse_perm.
    + apply nth_error_In with (n := j). now apply nth_error_combine_inv.
Qed.

Lemma sorted_combine_lookup_inv (ks : list string) (recs : list MetricRecord)
    k m :
  dict_get (sorted (fun tag => f1 (snd tag)) true (combine ks recs)) k = Some m ->
  exists j, nth_error ks j = Some k /\ nth_error recs j = Some m.
Proof.
  intros Hget. apply dict_get_Some_In in Hget.
  apply Permutation_in with (l' := combine ks recs) in Hget;
    [|apply sorted_reverse_perm].
  apply In_nth_error in Hget. destruct Hget as [j Hj]. exists j.
  revert ks recs Hj. induction j as [|j IH]; intros [|k0 ks] [|r0 recs];
    simpl; try discriminate.
  - now intros [= -> ->].
  - apply IH.
Qed.

(** With labels below the number of classes, a returned per-class mapping is
    the sorted list of the classic records of the labels 0, 1, ... *)
Lemma per_class_records_in_range T P (c : dict Z) out :
  NoDup (keys c) ->
  in_range (List.length c) T -> in_range (List.length c) P ->
  get_per_class_metrics T P c = Ok out ->
  exists recs,
    List.length recs = List.length (keys c) /\
    out = sorted (fun tag => f1 (snd tag)) true (combine (keys c) recs) /\
    forall j m, nth_error recs j = Some m ->
      class_record T P (Z.of_nat j) m /\ In (Z.of_nat j) (T ++ P).
Proof.
  intros Hnd HT HP Hout.
  destruct (get_per_class_metrics_Ok_inv _ _ _ _ Hout) as [Hlen Hle].
  destruct (get_per_class_metrics_shape _ _ _ _ Hnd Hout)
    as (metrics & recs & Hm & Hrecs & Hrec & ->).
  exists recs. split; [assumption|]. split; [reflexivity|].
  intros j m Hj. specialize (Hrec j m Hj).
  apply prfs_none_eq in Hm. subst metrics. unfold record_at in Hrec.
  destruct Hrec as (Hp & Hr & Hf & s & Hs & Hn).
  assert (Hjk : (j < List.length c)%nat).
  { unfold keys in Hrecs. rewrite length_map in Hrecs. rewrite <- Hrecs.
    apply nth_error_Some. congruence. }
  assert (Hstat : nth_error (stats_of T P) j =
            Some (Sklearn.count_tp (Z.of_nat j) T P,
                  Sklearn.count_label (Z.of_nat j) P,
                  Sklearn.count_label (Z.of_nat j) T)).
  { rewrite stats_of_eq, (unique_labels_full (List.length c)) by assumption.
    rewrite nth_error_map, nth_error_zrange by assumption. reflexivity. }
  rewrite nth_error_map, Hstat in Hp, Hr, Hf, Hs. cbn [option_map] in *.
  apply Some_inj in Hp, Hr, Hf, Hs. split.
  - apply class_record_of_stats; try assumption; try (now symmetry).
    rewrite Hn. now subst s.
  - apply in_app_iff, In_unique_labels.
    rewrite (unique_labels_full (List.length c)) by assumption.
    apply In_zrange. lia.
Qed.

Lemma count_label_le_len l y : Sklearn.count_label l y <= len y.
Proof.
  unfold Sklearn.count_label, len. apply inj_le.
  induction y as [|t y IH]; simpl; [lia|].
  destruct (l =? t); simpl; lia.
Qed.

Lemma count_label_pos l y : In l y -> 0 < Sklearn.count_label l y.
Proof.
  unfold Sklearn.count_label. intros Hin.
  assert (Hf : In l (filter (Z.eqb l) y)).
  { apply filter_In. split; [assumption|apply Z.eqb_refl]. }
  destruct (filter (Z.eqb l) y); [contradiction|]. simpl List.length. lia.
Qed.

(** X2. When the labels are class indices below the number of classes, a
    returned per-class mapping gives the class at insertion position [j] the
    classic metrics of the label [j]: precision TP / (TP + FP), recall
    TP / (TP + FN), their harmonic mean as f1 (0 for an undefined ratio) and
    the number of truth entries equal to [j] as num_samples. *)
Theorem per_class_classic_metrics (y_true y_pred : list Z)
    (class_to_index : dict Z) (out : dict MetricRecord)
    (j : nat) (k : string) :
  NoDup (keys class_to_index) ->
  in_range (List.length class_to_index) y_true ->
  in_range (List.length class_to_index) y_pred ->
  get_per_class_metrics y_true y_pred class_to_index = Ok out ->
  nth_error (keys class_to_index) j = Some k ->
  exists m, dict_get out k = Some m /\
            class_record y_true y_pred (Z.of_nat j) m.
Proof.
  intros Hnd HT HP Hout Hk.
  destruct (per_class_records_in_range _ _ _ _ Hnd HT HP Hout)
    as (recs & Hlen & -> & Hrec).
  destruct (nth_error recs j) as [m|] eqn:Hm.
  - exists m. split; [|now apply Hrec].
    now apply sorted_combine_lookup with (j := j).
  - apply nth_error_None in Hm.
    assert (j < List.length (keys class_to_index))%nat
      by (apply nth_error_Some; congruence).
    lia.
Qed.

Lemma per_class_classic_metrics_witness :
  exists out,
    get_per_class_metrics [0; 0; 1; 1] [0; 1; 1; 1] [("a", 0); ("b", 1)] =
      Ok out /\
    exists m, dict_get out "b" = Some m /\
              class_record [0; 0; 1; 1] [0; 1; 1; 1] 1 m.
Proof.
  eexists. split; [reflexivity|].
  apply (per_class_classic_metrics [0; 0; 1; 1] [0; 1; 1; 1]
           [("a", 0); ("b", 1)] _ 1%nat "b").
  - simpl. repeat constructor; simpl; intuition discriminate.
  - unfold in_range. repeat constructor; simpl; lia.
  - unfold in_range. repeat constructor; simpl; lia.
  - reflexivity.
  - reflexivity.
Defined.

(** X3. Every record of a returned per-class mapping has precision, recall
    and f1 in [0, 1], and as num_samples the float of an integer between 0
    and the number of samples. *)
Theorem per_class_records_bounded (y_true y_pred : list Z)
    (class_to_index : dict Z) (out : dict MetricRecord)
    (k : string) (m : MetricRecord) :
  NoDup (keys class_to_index) ->
  get_per_class_metrics y_true y_pred class_to_index = Ok out ->
  dict_get out k = Some m ->
  (0 <= precision m <= 1)%Q /\ (0 <= recall m <= 1)%Q /\
  (0 <= f1 m <= 1)%Q /\
  exists n, num_samples m = Float64 (inject_Z n) /\ 0 <= n <= len y_true.
Proof.
  intros Hnd Hout Hget.
  destruct (get_per_class_metrics_shape _ _ _ _ Hnd Hout)
    as (metrics & recs & Hm & _ & Hrec & ->).
  apply sorted_combine_lookup_inv in Hget. destruct Hget as (j & _ & Hj).
  specialize (Hrec j m Hj). apply prfs_none_eq in Hm. subst metrics.
  destruct Hrec as (Hp & Hr & Hf & s & Hs & Hn).
  pose proof (stats_of_good y_true y_pred) as Hgood.
  rewrite Forall_forall in Hgood.
  apply nth_error_In, in_map_iff in Hp, Hr, Hf.
  destruct Hp as (sp & <- & Hsp), Hr as (sr & <- & Hsr), Hf as (sf & <- & Hsf).
  split; [apply precision_of_unit; auto|].
  split; [apply recall_of_unit; auto|].
  split; [apply fscore_of_unit; auto|].
  exists s. split; [assumption|].
  rewrite true_sum_stats_of in Hs. apply nth_error_In, in_map_iff in Hs.
  destruct Hs as (l & <- & _).
  pose proof (count_label_nonneg l y_true).
  pose proof (count_label_le_len l y_true). lia.
Qed.

Lemma per_class_records_bounded_witness :
  let m := {| precision := 2#3; recall := 1; f1 := 4#5;
              num_samples := Float64 2 |} in
  (0 <= precision m <= 1)%Q /\ (0 <= recall m <= 1)%Q /\
  (0 <= f1 m <= 1)%Q /\
  exists n, num_samples m = Float64 (inject_Z n) /\ 0 <= n <= 4.
Proof.
  intros m.
  eapply (per_class_records_bounded [0; 0; 1; 1] [0; 1; 1; 1]
            [("a", 0); ("b", 1)] _ "b" m).
  - simpl. repeat constructor; simpl; intuition discriminate.
  - reflexivity.
  - reflexivity.
Defined.

(** ** Perfect predictions *)

Lemma true_positives_self l T : true_positives l T T = Sklearn.count_label l T.
Proof.
  unfold true_positives, count_where, Sklearn.count_label. f_equal.
  induction T as [|t T IH]; simpl; [reflexivity|].
  rewrite (Z.eqb_sym l t). destruct (t =? l); simpl; now rewrite IH.
Qed.

Lemma false_positives_self l T : false_positives l T T = 0.
Proof.
  unfold false_positives, count_where.
  induction T as [|t T IH]; simpl; [reflexivity|].
  destruct (t =? l); simpl; exact IH.
Qed.

Lemma false_negatives_self l T : false_negatives l T T = 0.
Proof.
  unfold false_negatives, count_where.
  induction T as [|t T IH]; simpl; [reflexivity|].
  destruct (t =? l); simpl; exact IH.
Qed.

Lemma ratio_self n : 0 < n -> (ratio n (n + 0) == 1)%Q.
Proof.
  intros Hn. unfold ratio. rewrite Z.add_0_r.
  destruct (Z.eqb_spec n 0) as [|_]; [lia|].
  apply Qmult_inv_r. unfold Qeq. simpl. lia.
Qed.

Lemma class_record_perfect T l m :
  In l T -> class_record T T l m ->
  (precision m == 1)%Q /\ (recall m == 1)%Q /\ (f1 m == 1)%Q.
Proof.
  intros Hin Hc. unfold class_record in Hc. cbv zeta in Hc.
  rewrite true_positives_self, false_positives_self, false_negatives_self
    in Hc.
  destruct Hc as (Hp & Hr & Hf & _).
  pose proof (ratio_self _ (count_label_pos l T Hin)) as H1.
  rewrite Hp, Hr. split; [assumption|]. split; [assumption|].
  rewrite Hf. now rewrite (harmonic_mean_compat _ _ 1 1 H1 H1).
Qed.

Lemma insert_asc_least {A : Type} (key : A -> Q) x l :
  Forall (fun y => (key x <= key y)%Q) l -> insert_asc key x l = x :: l.
Proof.
  intros [|y l' Hy _]; simpl; [reflexivity|].
  now rewrite (proj2 (Qlt_bool_false (key y) (key x)) Hy).
Qed.

Lemma sort_asc_sorted_id {A : Type} (key : A -> Q) l :
  StronglySorted (ascending key) l -> sort_asc key l = l.
Proof.
  induction 1 as [|x l Hs IH Hall]; simpl; [reflexivity|].
  rewrite IH. now apply insert_asc_least.
Qed.

(** A list already in descending key order is left as it is. *)
Lemma sorted_reverse_id {A : Type} (key : A -> Q) l :
  StronglySorted (descending key) l -> sorted key true l = l.
Proof.
  intros Hs. unfold sorted.
  rewrite sort_asc_sorted_id; [apply rev_involutive|].
  apply (StronglySorted_rev (descending key)), Hs.
Qed.

Lemma constant_key_descending {A : Type} (key : A -> Q) q l :
  Forall (fun a => (key a == q)%Q) l -> StronglySorted (descending key) l.
Proof.
  induction 1 as [|x l Hx Hl IH]; constructor; [assumption|].
  apply Forall_impl with (2 := Hl). intros y Hy. unfold descending.
  rewrite Hx, Hy. apply Qle_refl.
Qed.

(** X4. When the prediction array is the truth array, with labels below the
    number of classes, every record of a returned per-class mapping has
    precision, recall and f1 equal to 1, and, all f1 being equal, the stable
    sort leaves the classes in the order of the class index mapping. *)
Theorem per_class_perfect_predictions (y : list Z) (class_to_index : dict Z)
    (out : dict MetricRecord) :
  NoDup (keys class_to_index) ->
  in_range (List.length class_to_index) y ->
  get_per_class_metrics y y class_to_index = Ok out ->
  keys out = keys class_to_index /\
  forall k m, dict_get out k = Some m ->
    (precision m == 1)%Q /\ (recall m == 1)%Q /\ (f1 m == 1)%Q.
Proof.
  intros Hnd Hr Hout.
  destruct (per_class_records_in_range _ _ _ _ Hnd Hr Hr Hout)
    as (recs & Hlen & -> & Hrec).
  assert (Hone : forall j m, nth_error recs j = Some m ->
            (precision m == 1)%Q /\ (recall m == 1)%Q /\ (f1 m == 1)%Q).
  { intros j m Hj. destruct (Hrec j m Hj) as [Hc Hin].
    apply class_record_perfect with (T := y) (l := Z.of_nat j);
      [|assumption].
    apply in_app_iff in Hin. tauto. }
  assert (Hid : sorted (fun tag => f1 (snd tag)) true
                  (combine (keys class_to_index) recs) =
                combine (keys class_to_index) recs).
  { apply sorted_reverse_id, constant_key_descending with (q := 1%Q).
    apply Forall_forall. intros [k m] Hin. simpl.
    apply in_combine_r, In_nth_error in Hin. destruct Hin as [j Hj].
    now apply (Hone j m Hj). }
  rewrite Hid. split; [now apply keys_combine|].
  intros k m Hget. rewrite <- Hid in Hget.
  apply sorted_combine_lookup_inv in Hget. destruct Hget as (j & _ & Hj).
  now apply (Hone j m Hj).
Qed.

Lemma per_class_perfect_predictions_witness :
  exists out,
    get_per_class_metrics [1; 0; 1] [1; 0; 1] [("a", 0); ("b", 1)] = Ok out /\
    keys out = ["a"; "b"] /\
    forall k m, dict_get out k = Some m ->
      (precision m == 1)%Q /\ (recall m == 1)%Q /\ (f1 m == 1)%Q.
Proof.
  eexists. split; [reflexivity|].
  apply (per_class_perfect_predictions [1; 0; 1] [("a", 0); ("b", 1)]).
  - simpl. repeat constructor; simpl; intuition discriminate.
  - unfold in_range. repeat constructor; simpl; lia.
  - reflexivity.
Defined.

(** ** The weighted scheme of the overall metrics *)

Lemma Qsum_map_eq {A : Type} (f g : A -> Q) (l : list A) :
  (forall x, In x l -> (f x == g x)%Q) ->
  (Np.Qsum (map f l) == Np.Qsum (map g l))%Q.
Proof.
  induction l as [|x l IH]; simpl; intros H; [reflexivity|].
  rewrite (H x) by now left. rewrite IH; [reflexivity|].
  intros y Hy. apply H. now right.
Qed.

Lemma Qsum_inject {A : Type} (f : A -> Z) (l : list A) :
  (Np.Qsum (map (fun x => inject_Z (f x)) l) == inject_Z (Np.Zsum (map f l)))%Q.
Proof.
  induction l as [|x l IH]; simpl; [reflexivity|].
  now rewrite IH, inject_Z_plus.
Qed.

Lemma precision_of_class T P l :
  List.length T = List.length P ->
  (Sklearn.precision_of (Sklearn.count_tp l T P, Sklearn.count_label l P,
                         Sklearn.count_label l T)
   == class_precision T P l)%Q.
Proof.
  intros Hlen. unfold Sklearn.precision_of, Sklearn.tp_sum, Sklearn.pred_sum,
    class_precision. cbn [fst snd]. rewrite prf_divide_ratio.
  now rewrite (predicted_split l T P Hlen).
Qed.

Lemma recall_of_class T P l :
  List.length T = List.length P ->
  (Sklearn.recall_of (Sklearn.count_tp l T P, Sklearn.count_label l P,
                      Sklearn.count_label l T)
   == class_recall T P l)%Q.
Proof.
  intros Hlen. unfold Sklearn.recall_of, Sklearn.tp_sum, Sklearn.true_sum,
    class_recall. cbn [fst snd]. rewrite prf_divide_ratio.
  now rewrite (actual_split l T P Hlen).
Qed.

Lemma fscore_of_class T P l :
  List.length T = List.length P ->
  (Sklearn.fscore_of (Sklearn.count_tp l T P, Sklearn.count_label l P,
                      Sklearn.count_label l T)
   == class_f1 T P l)%Q.
Proof.
  intros Hlen. unfold Sklearn.fscore_of, class_f1.
  apply f_score_harmonic.
  - now apply precision_of_class.
  - now apply recall_of_class.
  - apply prf_divide_unit. cbn [fst snd Sklearn.tp_sum Sklearn.pred_sum].
    pose proof (count_tp_nonneg l T P).
    pose proof (count_tp_le_pred l T P). lia.
  - apply prf_divide_unit. cbn [fst snd Sklearn.tp_sum Sklearn.true_sum].
    pose proof (count_tp_nonneg l T P).
    pose proof (count_tp_le_true l T P). lia.
Qed.

(** A sum over the statistics is a sum over the labels. *)
Lemma Qsum_stats_of (score : Z * Z * Z -> Q) (cls : Z -> Q) T P :
  (forall l, (score (Sklearn.count_tp l T P, Sklearn.count_label l P,
                     Sklearn.count_label l T) == cls l)%Q) ->
  (Np.Qsum (map (fun s => score s * inject_Z (Sklearn.true_sum s))
              (stats_of T P))
   == Np.Qsum (map (fun l => cls l * inject_Z (Sklearn.count_label l T))
                 (Sklearn.unique_labels T P)))%Q.
Proof.
  intros H. rewrite stats_of_eq, map_map. apply Qsum_map_eq.
  intros l _. cbn [Sklearn.true_sum snd]. now rewrite H.
Qed.

(** X5. On arrays of equal, non-zero length each overall score is the
    weighted average of the classic per-label score: the sum over the labels
    that occur in the data of the score of the label times its number of
    truth entries, divided by the number of samples. *)
Theorem overall_weighted_scheme (y_true y_pred : list Z) :
  List.length y_true = List.length y_pred ->
  (0 < List.length y_true)%nat ->
  exists m,
    get_overall_metrics y_true y_pred = Ok m /\
    (precision m
       == weighted_average (class_precision y_true y_pred) y_true y_pred)%Q /\
    (recall m
       == weighted_average (class_recall y_true y_pred) y_true y_pred)%Q /\
    (f1 m == weighted_average (class_f1 y_true y_pred) y_true y_pred)%Q.
Proof.
  intros Hlen Hpos.
  pose proof (get_overall_metrics_weighted_scheme _ _ Hlen Hpos) as H.
  cbv zeta in H. eexists. split; [exact H|].
  cbn [precision recall f1]. unfold weighted_average.
  rewrite !Qred_correct. split; [|split].
  - rewrite (Qsum_stats_of Sklearn.precision_of
               (class_precision y_true y_pred)); [reflexivity|].
    intros l. now apply precision_of_class.
  - rewrite (Qsum_stats_of Sklearn.recall_of
               (class_recall y_true y_pred)); [reflexivity|].
    intros l. now apply recall_of_class.
  - rewrite (Qsum_stats_of Sklearn.fscore_of
               (class_f1 y_true y_pred)); [reflexivity|].
    intros l. now apply fscore_of_class.
Qed.

Lemma overall_weighted_scheme_witness :
  let T := [0; 0; 1; 1] in
  let P := [0; 1; 1; 1] in
  exists m,
    get_overall_metrics T P = Ok m /\
    (precision m == weighted_average (class_precision T P) T P)%Q /\
    (recall m == weighted_average (class_recall T P) T P)%Q /\
    (f1 m == weighted_average (class_f1 T P) T P)%Q.
Proof.
  intros T P. apply (overall_weighted_scheme T P).
  - reflexivity.
  - simpl. lia.
Defined.

Lemma Zsum_zero {A : Type} (l : list A) : Np.Zsum (map (fun _ => 0) l) = 0.
Proof. induction l as [|x l IH]; simpl; [reflexivity|exact IH]. Qed.

(** Every agreement is a true positive of exactly one label. *)
Lemma Zsum_true_positives L : forall T P,
  NoDup L -> (forall t, In t T -> In t L) ->
  Np.Zsum (map (fun l => true_positives l T P) L) = agreements T P.
Proof.
  intros T. induction T as [|t T IH]; intros P Hnd Hin.
  - unfold true_positives, agreements, count_where. simpl. apply Zsum_zero.
  - destruct P as [|p P].
    + unfold true_positives, agreements, count_where. simpl. apply Zsum_zero.
    + rewrite (map_ext _ (fun l => (if l =? t then (if t =? p then 1 else 0)
                                    else 0)
                                   + true_positives l T P)).
      * rewrite Zsum_map_add, IH; auto; [|intros t' Ht'; apply Hin; now right].
        assert (Hs : Np.Zsum (map (fun l => if l =? t
                                            then (if t =? p then 1 else 0)
                                            else 0) L)
                     = if t =? p then 1 else 0).
        { destruct (t =? p).
          - apply Zsum_indicator; [assumption|]. apply Hin. now left.
          - rewrite (map_ext _ (fun _ => 0)); [apply Zsum_zero|].
            intros l. now destruct (l =? t). }
        rewrite Hs. unfold agreements, count_where. simpl.
        destruct (t =? p); simpl List.length; lia.
      * intros l. unfold true_positives, count_where. simpl.
        destruct (Z.eqb_spec t l), (Z.eqb_spec p l), (Z.eqb_spec l t),
          (Z.eqb_spec t p); simpl List.length; try lia; congruence.
Qed.

Lemma pooled_tp_agreements T P : pooled true_positives T P = agreements T P.
Proof.
  unfold pooled. apply Zsum_true_positives.
  - apply unique_labels_NoDup.
  - intros t Ht. apply In_unique_labels. now left.
Qed.

Lemma Qsum_stats_of_in (score : Z * Z * Z -> Q) (cls : Z -> Q) T P :
  (forall l, In l (Sklearn.unique_labels T P) ->
     (score (Sklearn.count_tp l T P, Sklearn.count_label l P,
             Sklearn.count_label l T) == cls l)%Q) ->
  (Np.Qsum (map (fun s => score s * inject_Z (Sklearn.true_sum s))
              (stats_of T P))
   == Np.Qsum (map (fun l => cls l * inject_Z (Sklearn.count_label l T))
                 (Sklearn.unique_labels T P)))%Q.
Proof.
  intros H. rewrite stats_of_eq, map_map. apply Qsum_map_eq.
  intros l Hl. cbn [Sklearn.true_sum snd]. now rewrite H.
Qed.

Lemma perfect_stats y l :
  In l (Sklearn.unique_labels y y) ->
  let s := (Sklearn.count_tp l y y, Sklearn.count_label l y,
            Sklearn.count_label l y) in
  (Sklearn.precision_of s == 1)%Q /\ (Sklearn.recall_of s == 1)%Q /\
  (Sklearn.fscore_of s == 1)%Q.
Proof.
  intros Hl s. apply In_unique_labels in Hl.
  assert (Hin : In l y) by tauto.
  pose proof (count_label_pos l y Hin) as Hpos.
  assert (Hone : (Sklearn.prf_divide (Sklearn.count_label l y)
                    (Sklearn.count_label l y) == 1)%Q).
  { rewrite prf_divide_ratio.
    rewrite <- (Z.add_0_r (Sklearn.count_label l y)) at 2.
    now apply ratio_self. }
  assert (Hp : (Sklearn.precision_of s == 1)%Q).
  { unfold Sklearn.precision_of, s, Sklearn.tp_sum, Sklearn.pred_sum.
    cbn [fst snd]. change (Sklearn.count_tp l y y) with (true_positives l y y).
    now rewrite true_positives_self. }
  assert (Hr : (Sklearn.recall_of s == 1)%Q).
  { unfold Sklearn.recall_of, s, Sklearn.tp_sum, Sklearn.true_sum.
    cbn [fst snd]. change (Sklearn.count_tp l y y) with (true_positives l y y).
    now rewrite true_positives_self. }
  split; [assumption|]. split; [assumption|].
  unfold Sklearn.fscore_of.
  rewrite (f_score_harmonic _ _ 1 1 Hp Hr); [reflexivity| |].
  - rewrite Hp. discriminate.
  - rewrite Hr. discriminate.
Qed.

(** X7. When the prediction array is the (non-empty) truth array, the
    overall precision, recall and f1 are all 1. *)
Theorem overall_perfect_predictions (y : list Z) :
  (0 < List.length y)%nat ->
  exists m,
    get_overall_metrics y y = Ok m /\
    (precision m == 1)%Q /\ (recall m == 1)%Q /\ (f1 m == 1)%Q /\
    num_samples m = Float64 (inject_Z (len y)).
Proof.
  intros Hpos.
  pose proof (get_overall_metrics_weighted_scheme y y eq_refl Hpos) as H.
  cbv zeta in H. eexists. split; [exact H|].
  cbn [precision recall f1 num_samples].
  assert (Hsum : forall score : Z * Z * Z -> Q,
    (forall l, In l (Sklearn.unique_labels y y) ->
       (score (Sklearn.count_tp l y y, Sklearn.count_label l y,
               Sklearn.count_label l y) == 1)%Q) ->
    (Qred (Np.Qsum (map (fun s => score s * inject_Z (Sklearn.true_sum s))
                      (stats_of y y)) / inject_Z (len y)) == 1)%Q).
  { intros score Hscore. rewrite Qred_correct.
    rewrite (Qsum_stats_of_in score (fun _ => 1%Q)) by assumption.
    rewrite (Qsum_map_eq _ (fun l => inject_Z (Sklearn.count_label l y)))
      by (intros l _; apply Qmult_1_l).
    rewrite Qsum_inject, Zsum_count_label.
    - apply Qmult_inv_r. unfold Qeq, len. simpl. lia.
    - apply unique_labels_NoDup.
    - intros t Ht. apply In_unique_labels. now left. }
  split; [|split; [|split; [|reflexivity]]]; apply Hsum; intros l Hl;
    now apply (perfect_stats y l Hl).
Qed.

Lemma overall_perfect_predictions_witness :
  exists m,
    get_overall_metrics [2; 0; 2] [2; 0; 2] = Ok m /\
    (precision m == 1)%Q /\ (recall m == 1)%Q /\ (f1 m == 1)%Q /\
    num_samples m = Float64 (inject_Z (len [2; 0; 2])).
Proof.
  apply (overall_perfect_predictions [2; 0; 2]). simpl. lia.
Defined.

(** ** More on the slice metrics *)

Lemma ratio_div n d : (ratio n d == inject_Z n / inject_Z d)%Q.
Proof.
  unfold ratio. destruct (Z.eqb_spec d 0) as [->|_]; [|reflexivity].
  unfold Qdiv. change (/ inject_Z 0)%Q with 0%Q. now rewrite Qmult_0_r.
Qed.

Lemma harmonic_mean_same a : (harmonic_mean a a == a)%Q.
Proof.
  unfold harmonic_mean. destruct (Qeq_bool (a + a) 0) eqn:E.
  - apply Qeq_bool_iff in E. lra.
  - apply Qeq_bool_neq in E. field. intros H. apply E. lra.
Qed.

(** With one label per sample the pooled false positives are the pooled
    false negatives, so the three micro averages are the accuracy. *)
Lemma micro_is_accuracy T P :
  List.length T = List.length P ->
  (micro_precision T P == accuracy T P)%Q /\
  (micro_recall T P == accuracy T P)%Q /\
  (micro_f1 T P == accuracy T P)%Q.
Proof.
  intros Hlen.
  assert (Hp : (micro_precision T P == accuracy T P)%Q).
  { unfold micro_precision, accuracy.
    rewrite <- (pooled_pred_sum T P Hlen), predicted_total, ratio_div.
    rewrite pooled_tp_agreements. unfold len. now rewrite Hlen. }
  assert (Hr : (micro_recall T P == accuracy T P)%Q).
  { unfold micro_recall, accuracy.
    rewrite <- (pooled_true_sum T P Hlen), support_total, ratio_div.
    now rewrite pooled_tp_agreements. }
  split; [assumption|]. split; [assumption|].
  unfold micro_f1. rewrite (harmonic_mean_compat _ _ _ _ Hp Hr).
  apply harmonic_mean_same.
Qed.

(** X8. In the record of a slice precision and recall coincide: each is the
    accuracy over the selected samples, the number of selected samples whose
    prediction is the truth over the number of selected samples; f1 is the
    harmonic mean of the two. *)
Theorem slice_metrics_are_accuracy (sfs : list slicing_function)
    (y_true y_pred : list Z) (df : list example)
    (name : string) (sf : example -> bool) :
  NoDup (map fst sfs) -> In (name, sf) sfs ->
  List.length y_true = List.length df ->
  List.length y_pred = List.length df ->
  (0 < count_true (map sf df))%nat ->
  let acc := accuracy (select y_true (map sf df)) (select y_pred (map sf df)) in
  exists out m,
    slice_metrics_of sfs y_true y_pred df = Ok out /\
    dict_get out name = Some m /\
    (precision m == acc)%Q /\ (recall m == acc)%Q /\
    (f1 m == harmonic_mean acc acc)%Q.
Proof.
  intros Hnd Hin HT HP Hpos acc.
  destruct (slice_loop_entries sfs y_true y_pred df Hnd HT HP)
    as (out & Hout & Hent & _).
  destruct (proj2 (Hent name sf Hin)) as (m & Hm & Hp & Hr & Hf & _); [lia|].
  assert (Hsel : List.length (select y_true (map sf df)) =
                 List.length (select y_pred (map sf df))).
  { rewrite !select_length; rewrite ?length_map; congruence. }
  destruct (micro_is_accuracy _ _ Hsel) as (Ap & Ar & _).
  exists out, m. rewrite slice_metrics_of_nonempty
    by (apply (count_true_nonempty sf); lia).
  split; [assumption|]. split; [assumption|].
  rewrite Hp, Hr, Hf. split; [assumption|]. split; [assumption|].
  unfold micro_f1. now apply harmonic_mean_compat.
Qed.

Lemma slice_metrics_are_accuracy_witness :
  let df := [ {| text := "a b c"; tag := "other" |};
              {| text := "bert for short"; tag := "other" |};
              {| text := "a b c d e f g h i"; tag := "other" |} ] in
  let T := [0; 1; 1] in
  let P := [0; 0; 1] in
  let acc := accuracy (select T (map short_text df))
                      (select P (map short_text df)) in
  (acc == 1#2)%Q /\
  exists out m,
    get_slice_metrics T P df = Ok out /\
    dict_get out "short_text" = Some m /\
    (precision m == acc)%Q /\ (recall m == acc)%Q /\
    (f1 m == harmonic_mean acc acc)%Q.
Proof.
  intros df T P acc. split; [reflexivity|].
  apply (slice_metrics_are_accuracy
           [("nlp_llm", nlp_llm); ("short_text", short_text)]
           T P df "short_text" short_text).
  - simpl. repeat constructor; simpl; intuition discriminate.
  - simpl. right. left. reflexivity.
  - reflexivity.
  - reflexivity.
  - vm_compute. lia.
Defined.

(** X9. The keys of returned slice metrics are the names of the slicing
    functions that hold of at least one example, in the order in which the
    slicing functions are listed. *)
Theorem slice_metrics_key_order (sfs : list slicing_function)
    (y_true y_pred : list Z) (df : list example) (out : dict MetricRecord) :
  NoDup (map fst sfs) ->
  slice_metrics_of sfs y_true y_pred df = Ok out ->
  keys out = map fst (filter (matches df) sfs).
Proof.
  intros Hnd Hout. apply slice_metrics_of_Ok_inv in Hout.
  destruct Hout as [_ Hout].
  now apply (slice_loop_keys _ _ _ _ [] out Hnd) in Hout.
Qed.

Lemma slice_metrics_key_order_witness :
  let df := [ {| text := "a b c"; tag := "other" |};
              {| text := "a b c d e f g h i"; tag := "other" |} ] in
  exists out,
    get_slice_metrics [0; 1] [0; 0] df = Ok out /\
    keys out = ["short_text"].
Proof.
  intros df. eexists. split; [reflexivity|].
  apply (slice_metrics_key_order
           [("nlp_llm", nlp_llm); ("short_text", short_text)]
           [0; 1] [0; 0] df).
  - simpl. repeat constructor; simpl; intuition discriminate.
  - reflexivity.
Defined.

Lemma count_true_none (sf : example -> bool) df :
  Forall (fun x => sf x = false) df -> count_true (map sf df) = 0%nat.
Proof.
  unfold count_true. induction 1 as [|x df Hx _ IH]; simpl; [reflexivity|].
  now rewrite Hx.
Qed.

Lemma count_true_some (sf : example -> bool) df :
  Exists (fun x => sf x = true) df -> count_true (map sf df) <> 0%nat.
Proof.
  unfold count_true. induction 1 as [x df Hx|x df _ IH]; simpl.
  - rewrite Hx. simpl. lia.
  - destruct (sf x); simpl; [lia|assumption].
Qed.

(** X10. On a data frame without rows [get_slice_metrics] ends with the
    [ValueError] of the applier. On a data frame with rows of which neither
    slicing function holds, it returns the empty dictionary, whatever the
    label arrays and their lengths: the arrays are not indexed. *)
Theorem slice_metrics_no_match (y_true y_pred : list Z) (df : list example) :
  (df = [] -> get_slice_metrics y_true y_pred df = Raise ValueError) /\
  (df <> [] ->
   Forall (fun x => nlp_llm x = false /\ short_text x = false) df ->
   get_slice_metrics y_true y_pred df = Ok []).
Proof.
  split; [intros ->; reflexivity|].
  intros Hne Hall.
  change (slice_metrics_of [("nlp_llm", nlp_llm); ("short_text", short_text)]
            y_true y_pred df = Ok []).
  rewrite slice_metrics_of_nonempty by assumption.
  rewrite !applier_columns_cons. cbn [slice_loop applier_columns map].
  rewrite !astype_bool_apply, !sum_mask_count.
  rewrite !count_true_none; [reflexivity| |].
  - apply Forall_impl with (2 := Hall). tauto.
  - apply Forall_impl with (2 := Hall). tauto.
Qed.

Lemma slice_metrics_no_match_witness :
  get_slice_metrics [0; 1; 2] [1] [] = Raise ValueError /\
  get_slice_metrics [0; 1; 2] [1]
    [ {| text := "one two three four five six seven eight"; tag := "mlops" |} ]
  = Ok [].
Proof.
  split.
  - apply (proj1 (slice_metrics_no_match [0; 1; 2] [1] [])). reflexivity.
  - apply (proj2 (slice_metrics_no_match [0; 1; 2] [1]
       [ {| text := "one two three four five six seven eight";
            tag := "mlops" |} ])).
    + discriminate.
    + repeat constructor.
Defined.

Lemma bool_index_mismatch a mask :
  List.length a <> List.length mask -> Np.bool_index a mask = Raise IndexError.
Proof.
  intros H. unfold Np.bool_index. apply Nat.eqb_neq in H. now rewrite H.
Qed.

Lemma slice_loop_mismatch T P n slices :
  Forall (fun s => List.length (snd s) = n) slices ->
  Exists (fun s => count_true (Np.astype_bool (snd s)) <> 0%nat) slices ->
  List.length T <> n \/ List.length P <> n ->
  forall acc, slice_loop T P slices acc = Raise IndexError.
Proof.
  intros Hall Hex Hne. induction Hall as [|[name col] slices Hcol _ IH];
    intros acc.
  - inversion Hex.
  - cbn [slice_loop]. simpl in Hcol.
    assert (Hmask : List.length (Np.astype_bool col) = n).
    { unfold Np.astype_bool. now rewrite length_map. }
    rewrite sum_mask_count.
    destruct (Z.eqb_spec (Z.of_nat (count_true (Np.astype_bool col))) 0)
      as [Hz|Hnz]; cbn [negb].
    + apply IH. inversion Hex as [? ? Hhere|? ? Hlater]; subst;
        [simpl in Hhere; lia|assumption].
    + destruct (Nat.eq_dec (List.length T) n) as [HT|HT].
      * rewrite bool_index_ok by congruence. cbn [bind].
        rewrite bool_index_mismatch; [reflexivity|].
        destruct Hne; congruence.
      * rewrite bool_index_mismatch; [reflexivity|congruence].
Qed.

(** X11. When a slicing function holds of some example and one of the label
    arrays is not as long as the data frame, the boolean indexing fails and
    [get_slice_metrics] raises [IndexError]. *)
Theorem slice_metrics_length_mismatch (y_true y_pred : list Z)
    (df : list example) :
  Exists (fun x => nlp_llm x = true \/ short_text x = true) df ->
  List.length y_true <> List.length df \/
  List.length y_pred <> List.length df ->
  get_slice_metrics y_true y_pred df = Raise IndexError.
Proof.
  intros Hex Hne.
  change (slice_metrics_of [("nlp_llm", nlp_llm); ("short_text", short_text)]
            y_true y_pred df = Raise IndexError).
  rewrite slice_metrics_of_nonempty by (intros ->; inversion Hex).
  apply slice_loop_mismatch with (n := List.length df); [| |assumption].
  - repeat constructor; simpl; now rewrite length_map.
  - assert (H : Exists (fun x => nlp_llm x = true) df \/
                Exists (fun x => short_text x = true) df).
    { clear Hne. induction Hex as [x df Hx|x df _ IH].
      - destruct Hx; [left|right]; now apply Exists_cons_hd.
      - destruct IH; [left|right]; now apply Exists_cons_tl. }
    destruct H as [H|H].
    + apply Exists_cons_hd. simpl. rewrite astype_bool_apply.
      now apply count_true_some.
    + apply Exists_cons_tl, Exists_cons_hd. simpl.
      rewrite astype_bool_apply. now apply count_true_some.
Qed.

Lemma slice_metrics_length_mismatch_witness :
  get_slice_metrics [0; 1] [0] [ {| text := "a b c"; tag := "other" |} ]
  = Raise IndexError.
Proof.
  apply slice_metrics_length_mismatch.
  - constructor. right. reflexivity.
  - left. simpl. lia.
Defined.

(** ** The report *)

(** X12. The [# Metrics] block of [evaluate], for labels that are class
    indices below the number of classes: label arrays of different lengths
    end the call with [ValueError]; with equal lengths, a class index that
    occurs in neither array ends it with the [IndexError] of the per-class
    calculator; when every class index occurs, a data frame without rows
    ends it with the [ValueError] of the applier, and a data frame with one
    row per label gives the report, with the given timestamp and run id and
    the results of the three calculators. *)
Theorem evaluate_metrics_outcome (ts rid : string) (y_true y_pred : list Z)
    (class_to_index : dict Z) (df : list example) :
  in_range (List.length class_to_index) y_true ->
  in_range (List.length class_to_index) y_pred ->
  (List.length y_true <> List.length y_pred ->
   evaluate_metrics ts rid y_true y_pred class_to_index df = Raise ValueError) /\
  (List.length y_true = List.length y_pred ->
   (exists i, 0 <= i < Z.of_nat (List.length class_to_index) /\
              ~ In i y_true /\ ~ In i y_pred) ->
   evaluate_metrics ts rid y_true y_pred class_to_index df = Raise IndexError) /\
  (List.length y_true = List.length y_pred ->
   (forall i, 0 <= i < Z.of_nat (List.length class_to_index) ->
              In i y_true \/ In i y_pred) ->
   df = [] ->
   evaluate_metrics ts rid y_true y_pred class_to_index df = Raise ValueError) /\
  (List.length y_true = List.length y_pred ->
   List.length y_true = List.length df ->
   (forall i, 0 <= i < Z.of_nat (List.length class_to_index) ->
              In i y_true \/ In i y_pred) ->
   df <> [] ->
   exists r,
     evaluate_metrics ts rid y_true y_pred class_to_index df = Ok r /\
     timestamp r = ts /\ run_id r = rid /\
     get_overall_metrics y_true y_pred = Ok (overall r) /\
     get_per_class_metrics y_true y_pred class_to_index = Ok (per_class r) /\
     get_slice_metrics y_true y_pred df = Ok (slices r)).
Proof.
  intros HT HP. unfold evaluate_metrics. split; [|split; [|split]].
  - intros Hne. now rewrite get_overall_metrics_mismatch.
  - intros Hlen (i & Hi & HiT & HiP).
    destruct (get_overall_metrics_ok _ _ Hlen) as (m & -> & _). cbn [bind].
    rewrite get_per_class_metrics_index_error; [reflexivity|assumption|].
    destruct (le_lt_dec (List.length class_to_index)
                (List.length (Sklearn.unique_labels y_true y_pred)))
      as [Hle|Hlt]; [|assumption].
    pose proof (proj1 (unique_labels_cover _ _ _ HT HP) Hle) as Hcov.
    destruct (Hcov i Hi); contradiction.
  - intros Hlen Hall ->.
    destruct (get_overall_metrics_ok _ _ Hlen) as (m & -> & _).
    destruct (get_per_class_metrics_returns y_true y_pred class_to_index Hlen)
      as [pc ->].
    { exact (proj2 (unique_labels_cover _ _ _ HT HP) Hall). }
    reflexivity.
  - intros Hlen Hdf Hall Hne.
    destruct (get_overall_metrics_ok _ _ Hlen) as (m & Hm & _).
    destruct (get_per_class_metrics_returns y_true y_pred class_to_index Hlen)
      as [pc Hpc].
    { exact (proj2 (unique_labels_cover _ _ _ HT HP) Hall). }
    destruct (slice_loop_entries
                [("nlp_llm", nlp_llm); ("short_text", short_text)]
                y_true y_pred df) as (sl & Hsl & _).
    { simpl. repeat constructor; simpl; intuition discriminate. }
    { assumption. }
    { congruence. }
    rewrite <- (slice_metrics_of_nonempty _ _ _ _ Hne) in Hsl.
    change (get_slice_metrics y_true y_pred df = Ok sl) in Hsl.
    rewrite Hm, Hpc, Hsl. cbn [bind]. eexists. split; [reflexivity|].
    cbn. auto.
Qed.

Lemma evaluate_metrics_outcome_witness :
  let c := [("a", 0); ("b", 1)] in
  let df := [ {| text := "a b c"; tag := "other" |};
              {| text := "bert"; tag := "natural-language-processing" |} ] in
  evaluate_metrics "now" "run" [0; 1] [1] c df = Raise ValueError /\
  evaluate_metrics "now" "run" [0; 0] [0; 0] c df = Raise IndexError /\
  evaluate_metrics "now" "run" [0; 1] [1; 1] c [] = Raise ValueError /\
  exists r,
    evaluate_metrics "now" "run" [0; 1] [1; 1] c df = Ok r /\
    timestamp r = "now" /\ run_id r = "run" /\
    get_overall_metrics [0; 1] [1; 1] = Ok (overall r) /\
    get_per_class_metrics [0; 1] [1; 1] c = Ok (per_class r) /\
    get_slice_metrics [0; 1] [1; 1] df = Ok (slices r).
Proof.
  intros c df.
  assert (Hall : forall i, 0 <= i < Z.of_nat (List.length c) ->
                 In i [0; 1] \/ In i [1; 1]).
  { intros i Hi. simpl in Hi. assert (H : i = 0 \/ i = 1) by lia.
    destruct H as [-> | ->]; simpl; auto. }
  split; [|split; [|split]].
  - apply (proj1 (evaluate_metrics_outcome "now" "run" [0; 1] [1] c df
                    ltac:(unfold in_range; repeat constructor; simpl; lia)
                    ltac:(unfold in_range; repeat constructor; simpl; lia))).
    simpl. lia.
  - apply (proj1 (proj2 (evaluate_metrics_outcome "now" "run" [0; 0] [0; 0]
                           c df
                    ltac:(unfold in_range; repeat constructor; simpl; lia)
                    ltac:(unfold in_range; repeat constructor; simpl; lia)))).
    + reflexivity.
    + exists 1. simpl. intuition lia.
  - apply (proj1 (proj2 (proj2 (evaluate_metrics_outcome "now" "run"
                           [0; 1] [1; 1] c []
                    ltac:(unfold in_range; repeat constructor; simpl; lia)
                    ltac:(unfold in_range; repeat constructor; simpl; lia))))).
    + reflexivity.
    + exact Hall.
    + reflexivity.
  - apply (proj2 (proj2 (proj2 (evaluate_metrics_outcome "now" "run"
                           [0; 1] [1; 1] c df
                    ltac:(unfold in_range; repeat constructor; simpl; lia)
                    ltac:(unfold in_range; repeat constructor; simpl; lia))))).
    + reflexivity.
    + reflexivity.
    + exact Hall.
    + discriminate.
Defined.

(** ** More on the slicing functions *)

Lemma occurs_in_trans a b c : occurs_in a b -> occurs_in b c -> occurs_in a c.
Proof.
  intros (p & q & ->) (p' & q' & ->).
  exists (p' ++ p)%string, (q ++ q')%string.
  now rewrite !append_assoc.
Qed.

Lemma occurs_in_ignoring_case_mono needle s s' :
  occurs_in_ignoring_case needle s -> occurs_in s s' ->
  occurs_in_ignoring_case needle s'.
Proof.
  intros (p & mid & q & -> & Hmid) (p' & q' & ->).
  exists (p' ++ p)%string, mid, (q ++ q')%string.
  split; [now rewrite !append_assoc|assumption].
Qed.

(** X13. [nlp_llm] is monotone: an example it holds of still satisfies it
    after characters are added around its tag and around its text. *)
Theorem nlp_llm_monotone (x y : example) :
  occurs_in (tag x) (tag y) -> occurs_in (text x) (text y) ->
  nlp_llm x = true -> nlp_llm y = true.
Proof.
  intros Htag Htext. unfold nlp_llm. cbv zeta.
  rewrite !andb_true_iff, !contains_spec, !existsb_exists.
  intros [Hx (term & Hin & Hterm)]. split.
  - now apply occurs_in_trans with (b := tag x).
  - exists term. split; [assumption|].
    apply contains_lower_spec in Hterm. apply contains_lower_spec.
    now apply occurs_in_ignoring_case_mono with (s := text x).
Qed.

Lemma nlp_llm_monotone_witness :
  nlp_llm {| text := "Fine-tuning ALBERT models on a budget";
             tag := "natural-language-processing, transformers" |} = true.
Proof.
  apply (nlp_llm_monotone
           {| text := "BERT"; tag := "natural-language-processing" |}).
  - exists ""%string, ", transformers"%string. reflexivity.
  - exists "Fine-tuning AL"%string, " models on a budget"%string. reflexivity.
  - reflexivity.
Defined.

Lemma split_concat sep trail ws :
  whitespace sep -> sep <> EmptyString -> whitespace trail ->
  Forall token ws ->
  Str.split_from None (String.concat sep ws ++ trail)%string = ws.
Proof.
  intros Hsep Hne Htrail Hws. induction Hws as [|w ws [Hw0 Hw] Hrest IH].
  - simpl. now apply (split_from_trailing None).
  - destruct ws as [|w2 ws].
    + simpl. rewrite split_from_word by assumption.
      now apply (split_from_trailing (Some w)).
    + change (String.concat sep (w :: w2 :: ws))
        with (w ++ sep ++ String.concat sep (w2 :: ws))%string.
      rewrite !append_assoc. rewrite split_from_word by assumption.
      rewrite split_from_Some_space by assumption. now rewrite IH.
Qed.

(** X14. A text made of words (non-empty, free of whitespace) separated by
    one fixed non-empty run of whitespace, with any whitespace before and
    after, splits back into its words; so [short_text] holds of it exactly
    when it has fewer than 8 words. *)
Theorem short_text_counts_words (lead sep trail tg : string)
    (ws : list string) :
  whitespace lead -> whitespace sep -> sep <> EmptyString ->
  whitespace trail -> Forall token ws ->
  let t := (lead ++ String.concat sep ws ++ trail)%string in
  Str.split t = ws /\
  short_text {| text := t; tag := tg |} = Nat.ltb (List.length ws) 8.
Proof.
  intros Hlead Hsep Hne Htrail Hws t.
  assert (Hsplit : Str.split t = ws).
  { unfold Str.split, t. rewrite split_from_None_space by assumption.
    now apply split_concat. }
  split; [assumption|]. unfold short_text. cbn [text]. now rewrite Hsplit.
Qed.

Lemma short_text_counts_words_witness :
  let t := "  fine-tuning	bert	models
"%string in
  Str.split t = ["fine-tuning"; "bert"; "models"] /\
  short_text {| text := t; tag := "nlp" |} = true.
Proof.
  intros t.
  apply (short_text_counts_words "  " "	" "
" "nlp" ["fine-tuning"; "bert"; "models"]);
    try reflexivity; try discriminate.
  repeat constructor; discriminate.
Defined.

(** ** The order of the samples *)

Lemma map_fst_combine {A B : Type} (l : list A) (l' : list B) :
  List.length l = List.length l' -> map fst (combine l l') = l.
Proof.
  revert l'. induction l as [|x l IH]; intros [|y l']; simpl;
    try discriminate; [reflexivity|].
  intros [= H]. now rewrite IH.
Qed.

Lemma map_snd_combine {A B : Type} (l : list A) (l' : list B) :
  List.length l = List.length l' -> map snd (combine l l') = l'.
Proof.
  revert l'. induction l as [|x l IH]; intros [|y l']; simpl;
    try discriminate; [reflexivity|].
  intros [= H]. now rewrite IH.
Qed.

Lemma filter_length_perm {A : Type} (f : A -> bool) (l l' : list A) :
  Permutation l l' ->
  List.length (filter f l) = List.length (filter f l').
Proof.
  induction 1 as [|x l l' _ IH|x y l|l l' l'' _ IH1 _ IH2]; simpl.
  - reflexivity.
  - destruct (f x); simpl; now rewrite IH.
  - destruct (f x), (f y); reflexivity.
  - now rewrite IH1.
Qed.

Lemma sorted_lt_ext l1 : forall l2,
  StronglySorted Z.lt l1 -> StronglySorted Z.lt l2 ->
  (forall x, In x l1 <-> In x l2) -> l1 = l2.
Proof.
  induction l1 as [|h1 t1 IH]; intros [|h2 t2] H1 H2 Hin.
  - reflexivity.
  - exfalso. apply (proj2 (Hin h2)). now left.
  - exfalso. apply (proj1 (Hin h1)). now left.
  - inversion H1 as [|? ? Hs1 Hall1]; subst.
    inversion H2 as [|? ? Hs2 Hall2]; subst.
    rewrite Forall_forall in Hall1, Hall2.
    assert (Heq : h1 = h2).
    { destruct (proj1 (Hin h1) (or_introl eq_refl)) as [E|E1]; [now symmetry|].
      destruct (proj2 (Hin h2) (or_introl eq_refl)) as [E|E2]; [assumption|].
      specialize (Hall2 h1 E1). specialize (Hall1 h2 E2). lia. }
    subst h2. f_equal. apply IH; auto. intros x. split; intros Hx.
    + destruct (proj1 (Hin x) (or_intror Hx)) as [E|E]; [|assumption].
      specialize (Hall1 x Hx). lia.
    + destruct (proj2 (Hin x) (or_intror Hx)) as [E|E]; [|assumption].
      specialize (Hall2 x Hx). lia.
Qed.

(** The confusion matrices do not depend on the order of the samples. *)
Lemma confusion_matrix_perm T P T' P' :
  List.length T = List.length P -> List.length T' = List.length P' ->
  Permutation (combine T P) (combine T' P') ->
  List.length T = List.length T' /\
  Sklearn.multilabel_confusion_matrix T P =
  Sklearn.multilabel_confusion_matrix T' P'.
Proof.
  intros Hlen Hlen' Hperm.
  assert (HT : Permutation T T').
  { rewrite <- (map_fst_combine T P Hlen), <- (map_fst_combine T' P' Hlen').
    now apply Permutation_map. }
  assert (HP : Permutation P P').
  { rewrite <- (map_snd_combine T P Hlen), <- (map_snd_combine T' P' Hlen').
    now apply Permutation_map. }
  assert (HlenT : List.length T = List.length T')
    by now apply Permutation_length.
  split; [assumption|].
  rewrite !multilabel_confusion_matrix_ok by assumption. f_equal.
  assert (Hlabels : Sklearn.unique_labels T P = Sklearn.unique_labels T' P').
  { apply sorted_lt_ext; try apply unique_labels_sorted.
    intros x. rewrite !In_unique_labels.
    split; intros [H|H];
      [left; now apply (Permutation_in _ HT)
      |right; now apply (Permutation_in _ HP)
      |left; now apply (Permutation_in _ (Permutation_sym HT))
      |right; now apply (Permutation_in _ (Permutation_sym HP))]. }
  rewrite Hlabels. apply map_ext. intros l.
  unfold Sklearn.confusion_of, Sklearn.count_tp, Sklearn.count_label.
  rewrite (filter_length_perm _ _ _ Hperm),
    (filter_length_perm (Z.eqb l) _ _ HT),
    (filter_length_perm (Z.eqb l) _ _ HP), HlenT.
  reflexivity.
Qed.

(** X15. The overall and the per-class metrics do not depend on the order of
    the samples: reordering the truth and prediction arrays together, so that
    the same (truth, prediction) pairs occur, changes neither result. *)
Theorem metrics_ignore_sample_order (T P T' P' : list Z)
    (class_to_index : dict Z) :
  List.length T = List.length P -> List.length T' = List.length P' ->
  Permutation (combine T P) (combine T' P') ->
  get_overall_metrics T P = get_overall_metrics T' P' /\
  get_per_class_metrics T P class_to_index =
  get_per_class_metrics T' P' class_to_index.
Proof.
  intros Hlen Hlen' Hperm.
  destruct (confusion_matrix_perm _ _ _ _ Hlen Hlen' Hperm) as [HlenT Hmcm].
  split.
  - unfold get_overall_metrics, Sklearn.prfs_weighted, len.
    now rewrite Hmcm, HlenT.
  - unfold get_per_class_metrics, Sklearn.prfs_none. now rewrite Hmcm.
Qed.

Lemma metrics_ignore_sample_order_witness :
  let c := [("a", 0); ("b", 1)] in
  get_overall_metrics [0; 0; 1; 1] [0; 1; 1; 1] =
  get_overall_metrics [1; 0; 1; 0] [1; 1; 1; 0] /\
  get_per_class_metrics [0; 0; 1; 1] [0; 1; 1; 1] c =
  get_per_class_metrics [1; 0; 1; 0] [1; 1; 1; 0] c.
Proof.
  intros c.
  apply (metrics_ignore_sample_order [0; 0; 1; 1] [0; 1; 1; 1]
           [1; 0; 1; 0] [1; 1; 1; 0] c).
  - reflexivity.
  - reflexivity.
  - simpl.
    apply perm_trans with (l' := [(0, 0); (1, 1); (0, 1); (1, 1)]).
    + apply perm_skip, perm_swap.
    + apply perm_trans with (l' := [(1, 1); (0, 0); (0, 1); (1, 1)]).
      * apply perm_swap.
      * apply perm_skip.
        apply perm_trans with (l' := [(0, 1); (0, 0); (1, 1)]).
        -- apply perm_swap.
        -- apply perm_skip, perm_swap.
Defined.
